(** * Customer segmentation dashboard: the query and aggregation core

    A shallow embedding of [streamlit_app.py]: the two base tables, the
    sidebar filters, the four KPI tiles, the per-segment radar profile, the
    feature selector and the monthly roll-up, followed by the properties of
    the dashboard that are checked against it.

    Numbers.  Finite column values are exact rationals ([Q]); rounding of
    binary64 arithmetic is not modelled.  The IEEE special values are kept,
    because pandas and numpy produce them where the script divides by zero or
    takes the mean of an empty series.  The text formatting of the tiles
    ([f"{x:.1f}%"]) is not modelled: a tile is the number handed to the format
    string (which prints a NaN as the text [nan]). *)

From Stdlib Require Import ZArith QArith Qabs List String Bool Permutation.
From Stdlib Require Import Lia Lqa Morphisms Setoid Sorted.
Import ListNotations.

Open Scope Z_scope.

(** ** Python and numpy values *)

(** numpy [float64]: a finite value or one of the IEEE special values.  The
    sign of zero is not represented. *)
Inductive float64 : Type :=
| Fin (q : Q)
| PInf
| NInf
| NaN.

(** Exceptions the script can raise. *)
Inductive exn : Type :=
| ZeroDivisionError
| KeyError (k : string).

Inductive result (A : Type) : Type :=
| Ok (a : A)
| Raise (e : exn).
Arguments Ok {A} a.
Arguments Raise {A} e.

Definition bind {A B : Type} (m : result A) (f : A -> result B) : result B :=
  match m with
  | Ok a => f a
  | Raise e => Raise e
  end.

Notation "x <- m ;; k" := (bind m (fun x => k))
  (at level 61, m at next level, right associativity).

Definition Qzero (q : Q) : bool := Qeq_bool q 0.
Definition Qpos (q : Q) : bool := negb (Qle_bool q 0).

(** [x - y] on float64. *)
Definition fsub (x y : float64) : float64 :=
  match x, y with
  | NaN, _ | _, NaN => NaN
  | Fin a, Fin b => Fin (a - b)
  | PInf, PInf | NInf, NInf => NaN
  | PInf, _ | _, NInf => PInf
  | NInf, _ | _, PInf => NInf
  end.

(** The infinity with the sign of [q]; [q] is not zero. *)
Definition inf_of_sign (q : Q) : float64 := if Qpos q then PInf else NInf.

Definition fneg (x : float64) : float64 :=
  match x with
  | Fin a => Fin (- a)
  | PInf => NInf
  | NInf => PInf
  | NaN => NaN
  end.

(** [x * y] on float64. *)
Definition fmul (x y : float64) : float64 :=
  match x, y with
  | NaN, _ | _, NaN => NaN
  | Fin a, Fin b => Fin (a * b)
  | Fin a, PInf | PInf, Fin a => if Qzero a then NaN else inf_of_sign a
  | Fin a, NInf | NInf, Fin a => if Qzero a then NaN else fneg (inf_of_sign a)
  | PInf, PInf | NInf, NInf => PInf
  | PInf, NInf | NInf, PInf => NInf
  end.

(** [x / y] on float64, numpy's behaviour: a division by zero is performed
    (with a warning) and gives an infinity, or NaN for [0 / 0]. *)
Definition fdiv (x y : float64) : float64 :=
  match x, y with
  | NaN, _ | _, NaN => NaN
  | Fin a, Fin b =>
      if Qzero b then (if Qzero a then NaN else inf_of_sign a)
      else Fin (a / b)
  | Fin _, (PInf | NInf) => Fin 0
  | (PInf | NInf), (PInf | NInf) => NaN
  | PInf, Fin b => if Qzero b then PInf else inf_of_sign b
  | NInf, Fin b => if Qzero b then NInf else fneg (inf_of_sign b)
  end.

(** [x <= y] on float64; false when either side is NaN. *)
Definition fleb (x y : float64) : bool :=
  match x, y with
  | NaN, _ | _, NaN => false
  | NInf, _ | _, PInf => true
  | Fin a, Fin b => Qle_bool a b
  | _, _ => false
  end.

Definition of_int (n : Z) : float64 := Fin (inject_Z n).

(** Python's [a / b] on two [int]s: true division, raising on a zero divisor. *)
Definition int_truediv (a b : Z) : result float64 :=
  if b =? 0 then Raise ZeroDivisionError
  else Ok (Fin (inject_Z a / inject_Z b)).

(** ** pandas series operations *)

(** [Series.sum()]: 0 on an empty series.  This is the exact sum of the
    entries.  The binary64 sum that pandas returns differs from it by the
    rounding of each addition, which depends on the order and the grouping
    of the rows: a statement that compares two sums computed apart holds
    for the exact sums only, and says so. *)
Fixpoint series_sum (s : list Q) : Q :=
  match s with
  | [] => 0%Q
  | x :: s' => (x + series_sum s')%Q
  end.

Definition count {A : Type} (s : list A) : Z := Z.of_nat (List.length s).

(** [Series.mean()]: NaN on an empty series. *)
Definition series_mean (s : list Q) : float64 :=
  match s with
  | [] => NaN
  | _ :: _ => Fin (series_sum s / inject_Z (count s))
  end.

(** [Series.max()] on a float column: NaN entries are skipped, and the result
    is NaN when nothing is left. *)
Fixpoint series_max (s : list float64) : float64 :=
  match s with
  | [] => NaN
  | x :: s' =>
      match x, series_max s' with
      | NaN, m => m
      | _, NaN => x
      | _, m => if fleb m x then x else m
      end
  end.

(** [Series.unique()]: the distinct values in order of first appearance. *)
Fixpoint unique (s : list Z) : list Z :=
  match s with
  | [] => []
  | x :: s' => x :: filter (fun y => negb (y =? x)) (unique s')
  end.

Definition nunique (s : list Z) : Z := count (unique s).

(** [Series.isin(values)]. *)
Definition isin (x : Z) (values : list Z) : bool := existsb (Z.eqb x) values.

(** Subscription of a dict literal, an association list in source order. *)
Fixpoint dict_getitem {V : Type} (d : list (string * V)) (k : string) : result V :=
  match d with
  | [] => Raise (KeyError k)
  | (k', v) :: d' => if String.eqb k' k then Ok v else dict_getitem d' k
  end.

(** [Series.map(dict)] on an integer key: a missing key maps to a null. *)
Fixpoint dict_map {V : Type} (d : list (Z * V)) (k : Z) : option V :=
  match d with
  | [] => None
  | (k', v) :: d' => if k' =? k then Some v else dict_map d' k
  end.

(** ** Dates *)

Record date : Type := mkdate { year : Z; month : Z; day : Z }.

(** A parsed [order_date]: its calendar date and the time of day. *)
Record timestamp : Type := mktimestamp { ts_date : date; time_of_day : Z }.

(** Python's [date.__le__]: lexicographic on year, month, day. *)
Definition date_leb (a b : date) : bool :=
  (year a <? year b)
  || ((year a =? year b)
      && ((month a <? month b)
          || ((month a =? month b) && (day a <=? day b)))).

(** [.dt.to_period('M')]: the calendar month containing the instant. *)
Definition to_period_M (t : timestamp) : Z * Z :=
  (year (ts_date t), month (ts_date t)).

(** [.dt.to_timestamp()] of a monthly period: its first instant. *)
Definition to_timestamp (p : Z * Z) : timestamp :=
  mktimestamp (mkdate (fst p) (snd p) 1) 0.

(** ** The two base tables *)

Module Txn.
(** A row of [data], the transaction log. *)
Record row : Type := mk {
  customer_id : Z;
  order_date : timestamp;
  purchase_amount : Q;
  currency : string
}.
End Txn.

Module Cust.
(** A row of [customer_features_clustered].  The optional [first_purchase]
    and [last_purchase] columns are only re-parsed at load time and read by
    nothing else; they are left out. *)
Record row : Type := mk {
  customer_id : Z;
  cluster : Z;
  monetary : Q;
  frequency : Q;
  recency : Q;
  purchase_variability : Q;
  tenure_days : Q;
  purchases_per_day : Q;
  spend_per_day : Q;
  recency_ratio : Q;
  customer_value_score : Q
}.
End Cust.

(** ** groupby *)

Section GroupBy.
Variables R K : Type.
Variable K_eq_dec : forall a b : K, {a = b} + {a <> b}.
(** The order in which pandas sorts the group keys. *)
Variable kleb : K -> K -> bool.
(** The group key of a row; [None] when a key column holds a null. *)
Variable key : R -> option K.

Fixpoint insert_key (k : K) (ks : list K) : list K :=
  match ks with
  | [] => [k]
  | k' :: ks' => if kleb k k' then k :: ks else k' :: insert_key k ks'
  end.

Definition sort_keys (ks : list K) : list K := fold_right insert_key [] ks.

(** The keys of the rows that have one. *)
Fixpoint present_keys (rows : list R) : list K :=
  match rows with
  | [] => []
  | r :: rows' =>
      match key r with
      | Some k => k :: present_keys rows'
      | None => present_keys rows'
      end
  end.

Definition has_key (k : K) (r : R) : bool :=
  match key r with
  | Some k' => if K_eq_dec k' k then true else false
  | None => false
  end.

(** The row has a key: none of its key columns is null. *)
Definition keyed (r : R) : bool :=
  match key r with
  | Some _ => true
  | None => false
  end.

(** The rows of one key, in table order. *)
Definition group (rows : list R) (k : K) : list R := filter (has_key k) rows.

(** [DataFrame.groupby(keys)] with its defaults [sort=True] and
    [dropna=True]: one group per distinct key, keys ascending, each group
    holding its rows in table order; a row whose key is null belongs to no
    group. *)
Definition groupby (rows : list R) : list (K * list R) :=
  map (fun k => (k, group rows k))
      (sort_keys (nodup K_eq_dec (present_keys rows))).
End GroupBy.

Arguments groupby {R K} K_eq_dec kleb key rows.
Arguments keyed {R K} key r.
Arguments group {R K} K_eq_dec key rows k.
Arguments has_key {R K} K_eq_dec key k r.
Arguments present_keys {R K} key rows.
Arguments sort_keys {K} kleb ks.
Arguments insert_key {K} kleb k ks.

(** ** Sidebar filters (lines 42-74) *)

(** The date test of lines 63-64 on one row: the calendar date of
    [order_date] against both ends. *)
Definition in_date_range (start_date end_date : date) (t : Txn.row) : bool :=
  date_leb start_date (ts_date (Txn.order_date t))
  && date_leb (ts_date (Txn.order_date t)) end_date.

(** Lines 61-74.  [date_range] is the tuple returned by the date widget (no,
    one or two dates); [cluster_filter] is the list returned by the segment
    multiselect.  The result is the pair
    [(filtered_data, filtered_customers)]. *)
Definition sidebar_filter (data : list Txn.row)
    (customer_features_clustered : list Cust.row)
    (cluster_filter : list Z) (date_range : list date)
  : list Txn.row * list Cust.row :=
  match date_range with
  | [start_date; end_date] =>
      let filtered_data := filter (in_date_range start_date end_date) data in
      let filtered_customers :=
        filter (fun c =>
                  isin (Cust.customer_id c)
                       (unique (map Txn.customer_id filtered_data))
                  && isin (Cust.cluster c) cluster_filter)
               customer_features_clustered in
      (filtered_data, filtered_customers)
  | _ =>
      (data,
       filter (fun c => isin (Cust.cluster c) cluster_filter)
              customer_features_clustered)
  end.

Definition filtered_data data customer_features_clustered cluster_filter
    date_range : list Txn.row :=
  fst (sidebar_filter data customer_features_clustered cluster_filter
                      date_range).

Definition filtered_customers data customer_features_clustered cluster_filter
    date_range : list Cust.row :=
  snd (sidebar_filter data customer_features_clustered cluster_filter
                      date_range).

(** ** KPI tiles (lines 78-110) *)

(** A [st.metric] tile: the value shown and the delta shown under it. *)
Record metric (V : Type) : Type := mkmetric { value : V; delta : float64 }.
Arguments mkmetric {V} value delta.
Arguments value {V} m.
Arguments delta {V} m.

(** Lines 81-85: both counts are Python ints, so the division raises on an
    empty customer table. *)
Definition total_customers (filtered_customers customer_features_clustered
    : list Cust.row) : result (metric Z) :=
  let n := nunique (map Cust.customer_id filtered_customers) in
  share <- int_truediv n
             (nunique (map Cust.customer_id customer_features_clustered)) ;;
  Ok (mkmetric n (fmul share (of_int 100))).

(** Lines 88-92.  The sums of a table with rows are numpy numbers, and
    their division by zero gives NaN or an infinity.  A table without any
    row has an untyped column whose sum is the Python int 0, as is the sum
    of its (empty) filtered view: the division is then the integer one and
    raises. *)
Definition total_revenue (filtered_data data : list Txn.row)
  : result (metric Q) :=
  let s := series_sum (map Txn.purchase_amount filtered_data) in
  share <- match data with
           | [] => int_truediv 0 0
           | _ :: _ =>
               Ok (fdiv (Fin s)
                        (Fin (series_sum (map Txn.purchase_amount data))))
           end ;;
  Ok (mkmetric s (fmul share (of_int 100))).

(** The expression [(x - overall) / overall * 100] of lines 100 and 109. *)
Definition relative_change (x overall : float64) : float64 :=
  fmul (fdiv (fsub x overall) overall) (of_int 100).

(** Lines 95-101, reached when the second tile has not raised. *)
Definition average_order_value (filtered_data data : list Txn.row)
  : metric float64 :=
  let avg_order_value :=
    series_mean (map Txn.purchase_amount filtered_data) in
  let overall_avg := series_mean (map Txn.purchase_amount data) in
  mkmetric avg_order_value (relative_change avg_order_value overall_avg).

(** Lines 104-110, reached when the first two tiles have not raised. *)
Definition average_purchase_frequency (filtered_customers
    customer_features_clustered : list Cust.row) : metric float64 :=
  let avg_frequency := series_mean (map Cust.frequency filtered_customers) in
  let overall_freq :=
    series_mean (map Cust.frequency customer_features_clustered) in
  mkmetric avg_frequency (relative_change avg_frequency overall_freq).

Record kpis : Type := mkkpis {
  kpi_customers : metric Z;
  kpi_revenue : metric Q;
  kpi_order_value : metric float64;
  kpi_frequency : metric float64
}.

(** The top row as the script runs it: the first or the second tile may
    raise, which ends the run before the tiles after it are drawn. *)
Definition kpi_row (data : list Txn.row)
    (customer_features_clustered : list Cust.row)
    (cluster_filter : list Z) (date_range : list date) : result kpis :=
  let fd := filtered_data data customer_features_clustered cluster_filter
                          date_range in
  let fc := filtered_customers data customer_features_clustered
                               cluster_filter date_range in
  c <- total_customers fc customer_features_clustered ;;
  rev <- total_revenue fd data ;;
  Ok (mkkpis c rev (average_order_value fd data)
             (average_purchase_frequency fc customer_features_clustered)).

(** ** Segment profile (lines 147-178) *)

(** The fixed segment names of lines 121-124 and 154-157. *)
Definition segment_names : list (Z * string) :=
  [(1, "High-Value Loyalists"%string); (0, "Occasional Buyers"%string)].

Module Metrics.
(** A row of [cluster_metrics]. *)
Record row : Type := mk {
  cluster : Z;
  monetary : float64;
  frequency : float64;
  recency : float64;
  customer_value_score : float64;
  Segment : option string
}.
End Metrics.

(** [filtered_customers.groupby('cluster')]: the per-segment groups. *)
Definition segment_groups (filtered_customers : list Cust.row)
  : list (Z * list Cust.row) :=
  groupby Z.eq_dec Z.leb (fun c => Some (Cust.cluster c)) filtered_customers.

(** The four means of one group and its segment name. *)
Definition group_means (g : Z * list Cust.row) : Metrics.row :=
  let (k, rows) := g in
  Metrics.mk k
    (series_mean (map Cust.monetary rows))
    (series_mean (map Cust.frequency rows))
    (series_mean (map Cust.recency rows))
    (series_mean (map Cust.customer_value_score rows))
    (dict_map segment_names k).

(** Lines 147-157: group the filtered customers by [cluster], take the four
    means, attach the segment name. *)
Definition cluster_metrics (filtered_customers : list Cust.row)
  : list Metrics.row :=
  map group_means (segment_groups filtered_customers).

(** A [go.Scatterpolar] trace: the four radial coordinates in the order
    monetary, frequency, recency, customer value score. *)
Record trace : Type := mktrace {
  r : list float64;
  name : option string;
  line_color : string
}.

(** The loop of lines 164-178, one trace per row of [cluster_metrics]. *)
Definition radar_traces (cluster_metrics : list Metrics.row) : list trace :=
  map (fun row =>
         let monetary_norm :=
           fdiv (Metrics.monetary row)
                (series_max (map Metrics.monetary cluster_metrics)) in
         let frequency_norm :=
           fdiv (Metrics.frequency row)
                (series_max (map Metrics.frequency cluster_metrics)) in
         let recency_norm :=
           fsub (of_int 1)
                (fdiv (Metrics.recency row)
                      (series_max (map Metrics.recency cluster_metrics))) in
         let value_norm :=
           fdiv (Metrics.customer_value_score row)
                (series_max
                   (map Metrics.customer_value_score cluster_metrics)) in
         mktrace [monetary_norm; frequency_norm; recency_norm; value_norm]
                 (Metrics.Segment row)
                 (if Metrics.cluster row =? 1 then "#1f77b4" else "#ff7f0e"))
      cluster_metrics.

Definition segment_profile (filtered_customers : list Cust.row) : list trace :=
  radar_traces (cluster_metrics filtered_customers).

(** ** Feature selector (lines 197-211) *)

Definition feature_options : list string :=
  ["monetary"; "frequency"; "recency"; "purchase_variability";
   "tenure_days"; "purchases_per_day"; "spend_per_day";
   "recency_ratio"; "customer_value_score"]%string.

Definition feature_labels : list (string * string) :=
  [("monetary", "Total Spend ($)");
   ("frequency", "Purchase Frequency");
   ("recency", "Days Since Last Purchase");
   ("purchase_variability", "Purchase Variability");
   ("tenure_days", "Customer Tenure (days)")]%string.

(** The [format_func] lambda of lines 204-210. *)
Definition format_func (x : string) : result string :=
  dict_getitem feature_labels x.

(** ** Monthly roll-up (lines 254-268) *)

Module Joined.
(** A row of [filtered_data_with_cluster]: the transaction and the [cluster]
    column attached by the merge, null when nothing matched. *)
Record row : Type := mk {
  txn : Txn.row;
  cluster : option Z
}.
End Joined.

(** Lines 254-258: [merge(..., on='customer_id', how='left')].  Every left
    row is kept; it appears once per matching customer row, or once with a
    null [cluster] when there is none. *)
Definition merge_left (left : list Txn.row) (right : list Cust.row)
  : list Joined.row :=
  flat_map
    (fun t =>
       match filter (fun c => Cust.customer_id c =? Txn.customer_id t)
                    right with
       | [] => [Joined.mk t None]
       | matches =>
           map (fun c => Joined.mk t (Some (Cust.cluster c))) matches
       end)
    left.

(** A bucket key: ((year, month), cluster). *)
Definition bucket : Type := (Z * Z) * Z.

Definition bucket_eq_dec (a b : bucket) : {a = b} + {a <> b}.
Proof. repeat decide equality. Defined.

Definition bucket_leb (a b : bucket) : bool :=
  let '((ya, ma), ca) := a in
  let '((yb, mb), cb) := b in
  (ya <? yb)
  || ((ya =? yb) && ((ma <? mb) || ((ma =? mb) && (ca <=? cb)))).

(** The groupby key of line 261: the [year_month] column of line 260 and
    [cluster]; null when [cluster] is. *)
Definition bucket_key (j : Joined.row) : option bucket :=
  match Joined.cluster j with
  | Some c => Some (to_period_M (Txn.order_date (Joined.txn j)), c)
  | None => None
  end.

Module Monthly.
(** A row of [monthly_data] after the renaming of line 267. *)
Record row : Type := mk {
  year_month : timestamp;
  cluster : Z;
  total_revenue : Q;
  avg_order_value : float64;
  unique_customers : Z;
  order_count : Z
}.
End Monthly.

Definition filtered_data_with_cluster (filtered_data : list Txn.row)
    (customer_features_clustered : list Cust.row) : list Joined.row :=
  merge_left filtered_data customer_features_clustered.

(** The groups behind [monthly_data]: each bucket with its rows. *)
Definition monthly_groups (filtered_data : list Txn.row)
    (customer_features_clustered : list Cust.row)
  : list (bucket * list Joined.row) :=
  groupby bucket_eq_dec bucket_leb bucket_key
    (filtered_data_with_cluster filtered_data customer_features_clustered).

(** The aggregation of lines 261-268 on one group. *)
Definition aggregate (g : bucket * list Joined.row) : Monthly.row :=
  let (k, rows) := g in
  let amounts := map (fun j => Txn.purchase_amount (Joined.txn j)) rows in
  Monthly.mk (to_timestamp (fst k)) (snd k)
    (series_sum amounts)
    (series_mean amounts)
    (nunique (map (fun j => Txn.customer_id (Joined.txn j)) rows))
    (count rows).

Definition monthly_rollup (filtered_data : list Txn.row)
    (customer_features_clustered : list Cust.row) : list Monthly.row :=
  map aggregate (monthly_groups filtered_data customer_features_clustered).

(** [monthly_data] of one run of the script. *)
Definition monthly_data (data : list Txn.row)
    (customer_features_clustered : list Cust.row)
    (cluster_filter : list Z) (date_range : list date) : list Monthly.row :=
  monthly_rollup
    (filtered_data data customer_features_clustered cluster_filter date_range)
    customer_features_clustered.

(** ** Vocabulary of the statements *)

(** The same float64 value: finite values are compared as rationals, and a
    special value is only the same as itself. *)
Definition feq (x y : float64) : Prop :=
  match x, y with
  | Fin a, Fin b => (a == b)%Q
  | PInf, PInf | NInf, NInf | NaN, NaN => True
  | _, _ => False
  end.

Definition is_finite (x : float64) : bool :=
  match x with
  | Fin _ => true
  | _ => false
  end.

(** A finite value of the closed interval [0, 1]. *)
Definition in_unit (x : float64) : Prop :=
  match x with
  | Fin a => (0 <= a <= 1)%Q
  | _ => False
  end.

(** A finite value that is not negative, and one that is positive. *)
Definition nonneg (x : float64) : Prop :=
  match x with
  | Fin a => (0 <= a)%Q
  | _ => False
  end.

Definition positive (x : float64) : Prop :=
  match x with
  | Fin a => (0 < a)%Q
  | _ => False
  end.

(** The order on calendar dates, as a proposition. *)
Definition date_le (a b : date) : Prop :=
  year a < year b
  \/ (year a = year b
      /\ (month a < month b \/ (month a = month b /\ day a <= day b))).

(** The arithmetic mean of a non-empty series, as a rational. *)
Definition average (s : list Q) : Q := (series_sum s / inject_Z (count s))%Q.

(** The amount of a joined row, and whether the monthly groupby gives it a
    key. *)
Definition amount_of (j : Joined.row) : Q :=
  Txn.purchase_amount (Joined.txn j).

Definition keyed_row (j : Joined.row) : bool := keyed bucket_key j.

(** [DataFrame.empty]. *)
Definition is_empty {A : Type} (l : list A) : bool :=
  match l with
  | [] => true
  | _ :: _ => false
  end.

(** The customer of a transaction is listed in the customer table. *)
Definition has_customer (customers : list Cust.row) (t : Txn.row) : bool :=
  isin (Txn.customer_id t) (map Cust.customer_id customers).

(** ** Sample tables *)

Definition on_day (y m d : Z) : timestamp := mktimestamp (mkdate y m d) 0.

Definition purchase (id : Z) (t : timestamp) (amount : Q) : Txn.row :=
  Txn.mk id t amount "USD".

(** A customer row with the four profile metrics given and the other
    features at zero. *)
Definition customer (id seg : Z) (m f rec score : Q) : Cust.row :=
  Cust.mk id seg m f rec 0 0 0 0 0 score.

(** A sale in January and a refund in March: the whole log sums to 1000,
    January alone to 1200. *)
Definition refund_log : list Txn.row :=
  [purchase 7 (mktimestamp (mkdate 2024 1 5) 34200) 1200;
   purchase 8 (on_day 2024 3 9) (-200)].

Definition january : list date := [mkdate 2024 1 1; mkdate 2024 1 31].

Definition two_customers : list Cust.row :=
  [customer 7 1 1200 4 10 8; customer 8 0 300 2 40 2].

(** Customer 99 bought twice but has no row in the customer table. *)
Definition walk_in_log : list Txn.row :=
  [purchase 7 (on_day 2024 1 5) 120;
   purchase 99 (on_day 2024 1 20) 50;
   purchase 99 (on_day 2024 2 2) 30].

(** The only loyal customer bought on the last day: recency 0. *)
Definition fresh_loyalist : list Cust.row :=
  [customer 7 1 1200 4 0 8].

(** Segment 0 has a negative mean score; nobody has a positive recency. *)
Definition signed_scores : list Cust.row :=
  [customer 7 1 1200 4 0 6; customer 8 0 300 2 0 (-3)].

(** The default of the segment multiselect. *)
Definition both_segments : list Z := [0; 1].

(** A date range after the last transaction of [refund_log]. *)
Definition next_year : list date := [mkdate 2025 1 1; mkdate 2025 1 2].

Definition year_2024 : list date := [mkdate 2024 1 1; mkdate 2024 12 31].

(** The recency coordinate of a trace, third of the four. *)
Definition recency_coordinate (t : trace) : float64 := nth 2 (r t) (Fin 0).

(** The customer value score coordinate, the last one. *)
Definition score_coordinate (t : trace) : float64 := nth 3 (r t) (Fin 0).

(** ** The rest of the sidebar (lines 43-59) *)

(** The [format_func] of the segment multiselect, line 47. *)
Definition cluster_filter_label (x : Z) : string :=
  if x =? 1 then "High-Value Loyalists" else "Occasional Buyers".

(** The options of the segment multiselect, line 45. *)
Definition cluster_options : list Z := [0; 1].

(** The order of parsed timestamps: by calendar date, then by time of day. *)
Definition ts_leb (a b : timestamp) : bool :=
  if date_leb (ts_date a) (ts_date b)
  then (if date_leb (ts_date b) (ts_date a)
        then time_of_day a <=? time_of_day b
        else true)
  else false.

(** [Series.min()] and [Series.max()] on a timestamp column; [None] is the
    [NaT] of an empty column. *)
Fixpoint ts_min (s : list timestamp) : option timestamp :=
  match s with
  | [] => None
  | x :: s' =>
      match ts_min s' with
      | None => Some x
      | Some m => Some (if ts_leb x m then x else m)
      end
  end.

Fixpoint ts_max (s : list timestamp) : option timestamp :=
  match s with
  | [] => None
  | x :: s' =>
      match ts_max s' with
      | None => Some x
      | Some m => Some (if ts_leb m x then x else m)
      end
  end.

(** Lines 51-52. *)
Definition min_date (data : list Txn.row) : option date :=
  option_map ts_date (ts_min (map Txn.order_date data)).

Definition max_date (data : list Txn.row) : option date :=
  option_map ts_date (ts_max (map Txn.order_date data)).

(** The [value] of the date widget, line 56: what [date_range] is until the
    user changes it. *)
Definition default_date_range (data : list Txn.row) : option (list date) :=
  match min_date data, max_date data with
  | Some lo, Some hi => Some [lo; hi]
  | _, _ => None
  end.

(** ** Segment distribution (lines 119-125) *)

(** [Series.sum()] on an integer column. *)
Fixpoint int_sum (s : list Z) : Z :=
  match s with
  | [] => 0
  | x :: s' => x + int_sum s'
  end.

(** The number of entries of [s] equal to [v]. *)
Definition occurrences (v : Z) (s : list Z) : Z :=
  count (filter (fun x => x =? v) s).

(** [a] comes no later than [b] in the result of [value_counts]: its count
    is at least as large. *)
Definition count_geb (a b : Z * Z) : bool := snd b <=? snd a.

(** [Series.value_counts()]: each distinct value with its number of
    occurrences, most frequent first; equal counts stay in order of first
    appearance. *)
Definition value_counts (s : list Z) : list (Z * Z) :=
  sort_keys count_geb (map (fun v => (v, occurrences v s)) (unique s)).

Module Counts.
(** A row of [cluster_counts]. *)
Record row : Type := mk {
  Cluster : Z;
  Count : Z;
  Segment : option string;
  Percentage : float64
}.
End Counts.

(** Lines 119-125. *)
Definition cluster_counts (filtered_customers : list Cust.row)
  : list Counts.row :=
  let counts := value_counts (map Cust.cluster filtered_customers) in
  let total := int_sum (map snd counts) in
  map (fun vc : Z * Z =>
         let (v, c) := vc in
         Counts.mk v c (dict_map segment_names v)
           (fmul (fdiv (of_int c) (of_int total)) (of_int 100)))
      counts.

(** ** Vocabulary of the further statements *)

(** The bucket order as a proposition: by year, month, then cluster. *)
Definition bucket_lt (a b : bucket) : Prop :=
  fst (fst a) < fst (fst b)
  \/ (fst (fst a) = fst (fst b)
      /\ (snd (fst a) < snd (fst b)
          \/ (snd (fst a) = snd (fst b) /\ snd a < snd b))).

(** The bucket a roll-up row stands for. *)
Definition bucket_of (m : Monthly.row) : bucket :=
  (to_period_M (Monthly.year_month m), Monthly.cluster m).

(** A finite percentage between 0 and 100. *)
Definition is_percentage (x : float64) : Prop :=
  match x with
  | Fin p => (0 <= p <= 100)%Q
  | _ => False
  end.

(** Three customers, two of them loyal. *)
Definition three_customers : list Cust.row :=
  [customer 7 1 1200 4 10 8; customer 8 0 300 2 40 2;
   customer 9 1 900 3 5 7].

(** Three purchases on three days, the busiest day first. *)
Definition spring_log : list Txn.row :=
  [purchase 7 (mktimestamp (mkdate 2024 3 9) 61200) 80;
   purchase 8 (on_day 2024 2 28) 40;
   purchase 9 (mktimestamp (mkdate 2024 3 9) 7200) 60;
   purchase 7 (on_day 2024 4 1) 20].

(** The spring purchases and two more by customer 99, who has no row in
    the customer table. *)
Definition spring_walk_in_log : list Txn.row :=
  purchase 99 (on_day 2024 3 15) 25
  :: spring_log ++ [purchase 99 (on_day 2024 2 2) 30].

(** * Properties *)

(** ** Sums *)

Lemma series_sum_app (a b : list Q) :
  (series_sum (a ++ b) == series_sum a + series_sum b)%Q.
Proof.
  induction a as [|x a IH]; simpl.
  - ring.
  - rewrite IH. ring.
Qed.

Lemma series_sum_perm (a b : list Q) :
  Permutation a b -> (series_sum a == series_sum b)%Q.
Proof.
  induction 1 as [|x a b _ IH|x y a|a b c _ IH1 _ IH2]; simpl.
  - reflexivity.
  - rewrite IH. reflexivity.
  - ring.
  - rewrite IH1. exact IH2.
Qed.

Lemma series_sum_flat_map {A B : Type} (f : B -> Q) (g : A -> list B)
    (l : list A) :
  (series_sum (map f (flat_map g l))
   == series_sum (map (fun a => series_sum (map f (g a))) l))%Q.
Proof.
  induction l as [|a l IH]; simpl.
  - reflexivity.
  - rewrite map_app, series_sum_app, IH. reflexivity.
Qed.

(** ** groupby splits the keyed rows into their groups *)

Section GroupByFacts.
Variables R K : Type.
Variable K_eq_dec : forall a b : K, {a = b} + {a <> b}.
Variable kleb : K -> K -> bool.
Variable key : R -> option K.

Lemma insert_key_perm (k : K) (ks : list K) :
  Permutation (insert_key kleb k ks) (k :: ks).
Proof.
  induction ks as [|k' ks IH]; simpl.
  - reflexivity.
  - destruct (kleb k k').
    + reflexivity.
    + rewrite IH. apply perm_swap.
Qed.

Lemma sort_keys_perm (ks : list K) : Permutation (sort_keys kleb ks) ks.
Proof.
  induction ks as [|k ks IH]; simpl.
  - constructor.
  - rewrite insert_key_perm. now constructor.
Qed.

Lemma present_keys_In (rows : list R) (k : K) :
  In k (present_keys key rows) <-> exists r, In r rows /\ key r = Some k.
Proof.
  induction rows as [|r rows IH]; simpl.
  - split; [tauto | intros [r [[] _]]].
  - destruct (key r) as [k'|] eqn:E; simpl; rewrite IH; split.
    + intros [->|[r' [Hin Hk]]]; eauto.
    + intros [r' [[<-|Hin] Hk]]; [left; congruence | eauto].
    + intros [r' [Hin Hk]]; eauto.
    + intros [r' [[<-|Hin] Hk]]; [congruence | eauto].
Qed.

Lemma has_key_true (k : K) (r : R) :
  has_key K_eq_dec key k r = true <-> key r = Some k.
Proof.
  unfold has_key. destruct (key r) as [k'|].
  - destruct (K_eq_dec k' k); split; congruence.
  - split; discriminate.
Qed.

Lemma group_keys_NoDup (rows : list R) :
  NoDup (sort_keys kleb (nodup K_eq_dec (present_keys key rows))).
Proof.
  eapply Permutation_NoDup.
  - symmetry. apply sort_keys_perm.
  - apply NoDup_nodup.
Qed.

Lemma group_keys_In (rows : list R) (k : K) :
  In k (sort_keys kleb (nodup K_eq_dec (present_keys key rows)))
  <-> exists r, In r rows /\ key r = Some k.
Proof.
  rewrite <- present_keys_In.
  rewrite <- (nodup_In K_eq_dec (present_keys key rows) k).
  split; apply Permutation_in;
    [apply sort_keys_perm | symmetry; apply sort_keys_perm].
Qed.

Lemma group_skip (r : R) (rows : list R) (ks : list K) :
  (forall k, In k ks -> key r <> Some k) ->
  flat_map (group K_eq_dec key (r :: rows)) ks
  = flat_map (group K_eq_dec key rows) ks.
Proof.
  induction ks as [|k ks IH]; intros Hk; simpl.
  - reflexivity.
  - rewrite IH by (intros; apply Hk; now right).
    destruct (has_key K_eq_dec key k r) eqn:E.
    + apply has_key_true in E. exfalso. apply (Hk k); [now left | exact E].
    + reflexivity.
Qed.

Lemma group_take (r : R) (rows : list R) (k0 : K) (ks : list K) :
  key r = Some k0 -> NoDup ks -> In k0 ks ->
  Permutation (flat_map (group K_eq_dec key (r :: rows)) ks)
              (r :: flat_map (group K_eq_dec key rows) ks).
Proof.
  intros Hr. induction ks as [|k ks IH]; intros Hnd Hin.
  - destruct Hin.
  - inversion Hnd as [|? ? Hnotin Hnd']; subst. simpl.
    destruct (K_eq_dec k k0) as [->|Hne].
    + replace (has_key K_eq_dec key k0 r) with true
        by (symmetry; now apply has_key_true).
      rewrite group_skip; [reflexivity|].
      intros k Hk Heq. apply Hnotin. congruence.
    + replace (has_key K_eq_dec key k r) with false.
      * destruct Hin as [Heq|Hin]; [congruence|].
        rewrite (IH Hnd' Hin). symmetry. apply Permutation_middle.
      * symmetry. destruct (has_key K_eq_dec key k r) eqn:E; [|reflexivity].
        apply has_key_true in E. congruence.
Qed.

Lemma groups_partition (rows : list R) (ks : list K) :
  NoDup ks ->
  (forall r k, In r rows -> key r = Some k -> In k ks) ->
  Permutation (flat_map (group K_eq_dec key rows) ks)
              (filter (keyed key) rows).
Proof.
  intros Hnd. induction rows as [|r rows IH]; intros Hall.
  - simpl. induction ks as [|k ks IHk]; simpl; [constructor|].
    inversion Hnd; subst. now apply IHk.
  - assert (IH' : Permutation (flat_map (group K_eq_dec key rows) ks)
                              (filter (keyed key) rows)).
    { apply IH. intros r' k Hin. apply Hall. now right. }
    simpl. unfold keyed at 1. destruct (key r) as [k0|] eqn:E.
    + rewrite (group_take r rows k0 ks E Hnd).
      * now constructor.
      * apply (Hall r k0); [now left | exact E].
    + rewrite group_skip; [exact IH'|]. intros k _. congruence.
Qed.

Lemma groupby_flat (rows : list R) :
  Permutation (flat_map snd (groupby K_eq_dec kleb key rows))
              (filter (keyed key) rows).
Proof.
  unfold groupby. rewrite flat_map_concat_map, map_map. simpl.
  rewrite <- flat_map_concat_map.
  apply groups_partition.
  - apply group_keys_NoDup.
  - intros r k Hin Hk. apply group_keys_In. eauto.
Qed.

Lemma groupby_keys (rows : list R) :
  map fst (groupby K_eq_dec kleb key rows)
  = sort_keys kleb (nodup K_eq_dec (present_keys key rows)).
Proof.
  unfold groupby. rewrite map_map. simpl. apply map_id.
Qed.

Lemma groupby_In (rows : list R) (k : K) (g : list R) :
  In (k, g) (groupby K_eq_dec kleb key rows) ->
  g = filter (has_key K_eq_dec key k) rows /\ g <> [].
Proof.
  unfold groupby. rewrite in_map_iff. intros [k' [Heq Hin]].
  inversion Heq; subst. split; [reflexivity|].
  apply group_keys_In in Hin. destruct Hin as [r [Hr Hk]].
  intros Hnil.
  assert (Hin : In r (group K_eq_dec key rows k)).
  { apply filter_In. split; [exact Hr | now apply has_key_true]. }
  rewrite Hnil in Hin. destruct Hin.
Qed.
End GroupByFacts.

(** ** The sidebar filters *)

Lemma date_leb_le (a b : date) : date_leb a b = true <-> date_le a b.
Proof.
  unfold date_leb, date_le.
  rewrite !orb_true_iff, !andb_true_iff, orb_true_iff, andb_true_iff.
  rewrite !Z.ltb_lt, !Z.eqb_eq, Z.leb_le. reflexivity.
Qed.

Lemma in_date_range_spec (s e : date) (t : Txn.row) :
  in_date_range s e t = true
  <-> date_le s (ts_date (Txn.order_date t))
      /\ date_le (ts_date (Txn.order_date t)) e.
Proof.
  unfold in_date_range. now rewrite andb_true_iff, !date_leb_le.
Qed.

Lemma isin_In (x : Z) (values : list Z) : isin x values = true <-> In x values.
Proof.
  unfold isin. rewrite existsb_exists. split.
  - intros [y [Hin Heq]]. apply Z.eqb_eq in Heq. now subst.
  - intros Hin. exists x. split; [exact Hin | apply Z.eqb_refl].
Qed.

Lemma filter_all {A : Type} (f : A -> bool) (l : list A) :
  (forall x, f x = true) -> filter f l = l.
Proof.
  intros Hf. induction l as [|x l IH]; simpl.
  - reflexivity.
  - now rewrite Hf, IH.
Qed.

Lemma filter_forallb {A : Type} (f : A -> bool) (l : list A) :
  forallb f l = true -> filter f l = l.
Proof.
  induction l as [|x l IH]; simpl.
  - reflexivity.
  - intros H. apply andb_true_iff in H. destruct H as [Hx Hl].
    now rewrite Hx, IH.
Qed.

(** C5.  With a date range [start_date, end_date], [filtered_data] is the
    transaction table restricted, in table order, to the rows whose calendar
    date lies between the two ends, both included, whatever the time of day;
    with anything but two dates it is the whole table; in both cases the
    segment selection plays no part. *)
Theorem filtered_data_by_calendar_date :
  forall (data : list Txn.row) (customers : list Cust.row) (cluster_filter : list Z),
    (forall start_date end_date,
        (exists keep : Txn.row -> bool,
            (forall t, keep t = true
                       <-> date_le start_date (ts_date (Txn.order_date t))
                           /\ date_le (ts_date (Txn.order_date t)) end_date)
            /\ filtered_data data customers cluster_filter
                             [start_date; end_date]
               = filter keep data)
        /\ (forall t,
               In t (filtered_data data customers cluster_filter
                                   [start_date; end_date])
               <-> In t data
                   /\ date_le start_date (ts_date (Txn.order_date t))
                   /\ date_le (ts_date (Txn.order_date t)) end_date))
    /\ (forall date_range,
           List.length date_range <> 2%nat ->
           filtered_data data customers cluster_filter date_range = data)
    /\ (forall date_range other_filter,
           filtered_data data customers other_filter date_range
           = filtered_data data customers cluster_filter date_range).
Proof.
  intros data customers cluster_filter. split; [|split].
  - intros s e. split.
    + exists (in_date_range s e). split.
      * apply in_date_range_spec.
      * reflexivity.
    + intros t. unfold filtered_data. simpl.
      now rewrite filter_In, in_date_range_spec.
  - intros [|s [|e [|x dr]]] Hlen; try reflexivity.
    exfalso. now apply Hlen.
  - intros [|s [|e [|x dr]]] other; reflexivity.
Qed.

Lemma filtered_data_by_calendar_date_witness :
  filtered_data refund_log two_customers [1] [mkdate 2024 1 1] = refund_log.
Proof.
  apply (proj1 (proj2 (filtered_data_by_calendar_date
                         refund_log two_customers [1]))).
  simpl. discriminate.
Defined.

Lemma filtered_customers_in_segments data customers cluster_filter date_range :
  Forall (fun c => In (Cust.cluster c) cluster_filter)
         (filtered_customers data customers cluster_filter date_range).
Proof.
  apply Forall_forall. intros c.
  unfold filtered_customers, sidebar_filter.
  destruct date_range as [|s [|e [|x dr]]]; simpl; rewrite filter_In;
    try rewrite andb_true_iff; rewrite !isin_In; tauto.
Qed.

Lemma segment_has_key (k : Z) (c : Cust.row) :
  has_key Z.eq_dec (fun c => Some (Cust.cluster c)) k c = (Cust.cluster c =? k).
Proof.
  unfold has_key. destruct (Z.eq_dec (Cust.cluster c) k) as [E|E].
  - symmetry. now apply Z.eqb_eq.
  - symmetry. now apply Z.eqb_neq.
Qed.

Lemma segment_groups_partition (fc : list Cust.row) :
  Permutation (flat_map snd (segment_groups fc)) fc.
Proof.
  unfold segment_groups. rewrite groupby_flat.
  now rewrite filter_all.
Qed.

Lemma segment_groups_In (fc : list Cust.row) (g : Z * list Cust.row) :
  In g (segment_groups fc) ->
  snd g = filter (fun c => Cust.cluster c =? fst g) fc /\ snd g <> [].
Proof.
  destruct g as [k g]. intros Hin. apply groupby_In in Hin.
  destruct Hin as [Hg Hne]. split; [|exact Hne].
  simpl. rewrite Hg. apply filter_ext. intros c. apply segment_has_key.
Qed.

(** C6.  In both branches every row of [filtered_customers] has its cluster
    in the selected segments, and grouping by cluster splits the view: the
    groups put together hold the rows of [filtered_customers], each once;
    the group of a cluster is the rows of that cluster, it is not empty, and
    no cluster has two groups. *)
Theorem segment_partition :
  forall (data : list Txn.row) (customers : list Cust.row)
         (cluster_filter : list Z) (date_range : list date),
    let fc := filtered_customers data customers cluster_filter date_range in
    Forall (fun c => In (Cust.cluster c) cluster_filter) fc
    /\ Permutation (flat_map snd (segment_groups fc)) fc
    /\ Forall (fun g =>
                 snd g = filter (fun c => Cust.cluster c =? fst g) fc
                 /\ snd g <> [])
              (segment_groups fc)
    /\ NoDup (map fst (segment_groups fc)).
Proof.
  intros data customers cluster_filter date_range fc. repeat split.
  - apply filtered_customers_in_segments.
  - apply segment_groups_partition.
  - apply Forall_forall. intros g. apply segment_groups_In.
  - unfold segment_groups. rewrite groupby_keys. apply group_keys_NoDup.
Qed.

(** ** The feature selector *)

(** C9.  Nine features are offered, the label lookup knows five of them, and
    on each of the other four it raises [KeyError]. *)
Theorem format_func_misses_four_features :
  List.length feature_options = 9%nat
  /\ Forall (fun x => In x feature_options
                      /\ format_func x = Raise (KeyError x))
            ["purchases_per_day"; "spend_per_day"; "recency_ratio";
             "customer_value_score"]%string
  /\ filter (fun x => match format_func x with
                      | Ok _ => true
                      | Raise _ => false
                      end)
            feature_options
     = ["monetary"; "frequency"; "recency"; "purchase_variability";
        "tenure_days"]%string
  /\ map format_func
         ["monetary"; "frequency"; "recency"; "purchase_variability";
          "tenure_days"]%string
     = [Ok "Total Spend ($)"; Ok "Purchase Frequency";
        Ok "Days Since Last Purchase"; Ok "Purchase Variability";
        Ok "Customer Tenure (days)"]%string.
Proof.
  split; [reflexivity|]. split; [|split; reflexivity].
  repeat constructor; simpl; tauto.
Qed.

(** ** The monthly roll-up *)

(** C10.  The roll-up is computed from the date-filtered transactions and
    the whole customer table, so two runs that differ only in the selected
    segments produce the same [monthly_data]. *)
Theorem monthly_data_ignores_segments :
  forall (data : list Txn.row) (customers : list Cust.row)
         (segments segments' : list Z) (date_range : list date),
    monthly_data data customers segments date_range
    = monthly_data data customers segments' date_range
    /\ monthly_data data customers segments date_range
       = map aggregate
             (groupby bucket_eq_dec bucket_leb bucket_key
                (merge_left
                   (filtered_data data customers [] date_range) customers)).
Proof.
  intros data customers segments segments' date_range.
  unfold monthly_data, filtered_data, sidebar_filter.
  destruct date_range as [|s [|e [|x dr]]]; split; reflexivity.
Qed.

(** ** The KPI tiles *)

Lemma Qzero_false (q : Q) : ~ (q == 0)%Q -> Qzero q = false.
Proof.
  intros H. unfold Qzero. destruct (Qeq_bool q 0) eqn:E; [|reflexivity].
  apply Qeq_bool_iff in E. contradiction.
Qed.

Lemma Qzero_true (q : Q) : (q == 0)%Q -> Qzero q = true.
Proof. intros H. now apply Qeq_bool_iff. Qed.

Lemma fdiv_finite (a b : Q) :
  ~ (b == 0)%Q -> fdiv (Fin a) (Fin b) = Fin (a / b).
Proof. intros H. simpl. now rewrite Qzero_false. Qed.

Lemma count_nonzero {A : Type} (s : list A) :
  s <> [] -> ~ (inject_Z (count s) == 0)%Q.
Proof.
  intros Hs H. destruct s as [|x s]; [now apply Hs|].
  unfold count, Qeq in H. simpl in H. lia.
Qed.

Lemma series_mean_average (s : list Q) :
  s <> [] -> series_mean s = Fin (average s).
Proof. destruct s; [congruence | reflexivity]. Qed.

Lemma average_nonzero (s : list Q) :
  s <> [] -> ~ (series_sum s == 0)%Q -> ~ (average s == 0)%Q.
Proof.
  intros Hs Hsum H. unfold average in H.
  apply Hsum.
  rewrite <- (Qmult_div_r (series_sum s) (inject_Z (count s)))
    by now apply count_nonzero.
  rewrite H. ring.
Qed.

Lemma relative_change_finite (a b : Q) :
  ~ (b == 0)%Q ->
  relative_change (Fin a) (Fin b) = Fin ((a - b) / b * inject_Z 100).
Proof.
  intros H. unfold relative_change. simpl fsub. now rewrite fdiv_finite.
Qed.

Lemma relative_change_zero_baseline (x overall : float64) :
  feq overall (Fin 0) -> is_finite (relative_change x overall) = false.
Proof.
  destruct overall as [b| | |]; simpl; try tauto. intros Hb.
  unfold relative_change.
  destruct x as [a| | |]; simpl; rewrite ?(Qzero_true b Hb); try reflexivity.
  destruct (Qzero (a - b)); [reflexivity|].
  unfold inf_of_sign. destruct (Qpos (a - b)); reflexivity.
Qed.

Lemma unique_nonempty (s : list Z) : s <> [] -> unique s <> [].
Proof. destruct s; [congruence | discriminate]. Qed.

Lemma nunique_nonzero (s : list Z) : s <> [] -> nunique s <> 0.
Proof.
  intros Hs. apply unique_nonempty in Hs. unfold nunique, count.
  destruct (unique s); [congruence | simpl; lia].
Qed.

Lemma filtered_customers_incl data customers cluster_filter date_range :
  incl (filtered_customers data customers cluster_filter date_range) customers.
Proof.
  intros c. unfold filtered_customers, sidebar_filter.
  destruct date_range as [|s [|e [|x dr]]]; simpl; rewrite filter_In; tauto.
Qed.

Lemma total_customers_ok (fc customers : list Cust.row) :
  customers <> [] ->
  total_customers fc customers
  = Ok (mkmetric (nunique (map Cust.customer_id fc))
          (Fin (inject_Z (nunique (map Cust.customer_id fc))
                / inject_Z (nunique (map Cust.customer_id customers))
                * inject_Z 100))).
Proof.
  intros Hc. unfold total_customers, int_truediv.
  destruct (Z.eqb_spec (nunique (map Cust.customer_id customers)) 0) as [E|E].
  - exfalso. revert E. apply nunique_nonzero.
    destruct customers; [congruence | discriminate].
  - reflexivity.
Qed.

Lemma total_revenue_ok (fd data : list Txn.row) :
  data <> [] ->
  total_revenue fd data
  = Ok (mkmetric (series_sum (map Txn.purchase_amount fd))
          (fmul (fdiv (Fin (series_sum (map Txn.purchase_amount fd)))
                      (Fin (series_sum (map Txn.purchase_amount data))))
                (of_int 100))).
Proof. destruct data; [congruence | reflexivity]. Qed.

(** C1, as the claim states it, fails on the revenue tile: with a baseline
    revenue of 1000 and a filtered revenue of 1200 the delta shown is 120,
    not 20. *)
Lemma revenue_delta_counterexample :
  (series_sum (map Txn.purchase_amount refund_log) == 1000)%Q
  /\ (series_sum (map Txn.purchase_amount
                      (filtered_data refund_log two_customers both_segments january))
      == 1200)%Q
  /\ match kpi_row refund_log two_customers both_segments january with
     | Ok k => feq (delta (kpi_revenue k)) (Fin 120)
               /\ ~ feq (delta (kpi_revenue k)) (Fin 20)
     | Raise _ => False
     end.
Proof.
  split; [reflexivity|]. split; [reflexivity|].
  split; [reflexivity|]. vm_compute. discriminate.
Qed.

(** C1, amended.  On a run whose filtered views are not empty and whose
    baselines are not zero, all four tiles are drawn; the deltas of the
    average order value and of the average purchase frequency are
    (filtered - baseline) / baseline * 100, and the deltas of the customer
    count and of the total revenue are the shares filtered / baseline * 100,
    all against the unfiltered tables.  A baseline revenue of 1000 with a
    filtered revenue of 1200 shows 120. *)
Theorem kpi_deltas :
  forall (data : list Txn.row) (customers : list Cust.row)
         (cluster_filter : list Z) (date_range : list date),
    let fd := filtered_data data customers cluster_filter date_range in
    let fc := filtered_customers data customers cluster_filter date_range in
    let n := inject_Z (nunique (map Cust.customer_id fc)) in
    let n0 := inject_Z (nunique (map Cust.customer_id customers)) in
    let rev := series_sum (map Txn.purchase_amount fd) in
    let rev0 := series_sum (map Txn.purchase_amount data) in
    let aov := average (map Txn.purchase_amount fd) in
    let aov0 := average (map Txn.purchase_amount data) in
    let freq := average (map Cust.frequency fc) in
    let freq0 := average (map Cust.frequency customers) in
    fd <> [] -> fc <> [] ->
    ~ (rev0 == 0)%Q ->
    ~ (series_sum (map Cust.frequency customers) == 0)%Q ->
    exists k,
      kpi_row data customers cluster_filter date_range = Ok k
      /\ feq (delta (kpi_customers k)) (Fin (n / n0 * 100))
      /\ feq (delta (kpi_revenue k)) (Fin (rev / rev0 * 100))
      /\ feq (delta (kpi_order_value k)) (Fin ((aov - aov0) / aov0 * 100))
      /\ feq (delta (kpi_frequency k)) (Fin ((freq - freq0) / freq0 * 100))
      /\ ((rev0 == 1000)%Q -> (rev == 1200)%Q ->
          feq (delta (kpi_revenue k)) (Fin 120)).
Proof.
  intros data customers cluster_filter date_range fd fc n n0 rev rev0
         aov aov0 freq freq0 Hfd Hfc Hrev Hfreq.
  assert (Hcust : customers <> []).
  { intros ->. destruct fc as [|c fc'] eqn:E; [now apply Hfc|].
    apply (filtered_customers_incl data [] cluster_filter date_range c).
    fold fc. rewrite E. now left. }
  assert (Hdata : data <> []).
  { intros ->. apply Hrev. reflexivity. }
  unfold kpi_row. fold fd. fold fc.
  rewrite (total_customers_ok fc customers Hcust). simpl bind.
  rewrite (total_revenue_ok fd data Hdata). simpl bind.
  eexists. split; [reflexivity|]. simpl.
  assert (Hmap : forall (A : Type) (f : A -> Q) (l : list A),
             l <> [] -> map f l <> []).
  { intros A f [|x l]; [congruence | discriminate]. }
  repeat split.
  - fold rev. fold rev0. rewrite (Qzero_false rev0 Hrev). simpl. reflexivity.
  - rewrite !series_mean_average by now apply Hmap.
    fold aov. fold aov0. rewrite relative_change_finite.
    + simpl. reflexivity.
    + apply average_nonzero; [now apply Hmap | exact Hrev].
  - rewrite !series_mean_average by now apply Hmap.
    fold freq. fold freq0. rewrite relative_change_finite.
    + simpl. reflexivity.
    + apply average_nonzero; [now apply Hmap | exact Hfreq].
  - intros H0 H1. fold rev. fold rev0.
    rewrite (Qzero_false rev0 Hrev). simpl. rewrite H0, H1. reflexivity.
Qed.

Lemma kpi_deltas_witness :
  exists k,
    kpi_row refund_log two_customers both_segments january = Ok k
    /\ feq (delta (kpi_revenue k)) (Fin 120).
Proof.
  destruct (kpi_deltas refund_log two_customers both_segments january)
    as [k [Hk [_ [_ [_ [_ H]]]]]].
  - vm_compute. discriminate.
  - vm_compute. discriminate.
  - vm_compute. discriminate.
  - vm_compute. discriminate.
  - exists k. split; [exact Hk|]. apply H; reflexivity.
Defined.

(** C4, as the claim states it, fails on an empty filtered view: the two
    means and their deltas are NaN, and that is what the tiles are given. *)
Lemma empty_view_counterexample :
  filtered_data refund_log two_customers both_segments next_year = []
  /\ match kpi_row refund_log two_customers both_segments next_year with
     | Ok k => kpi_order_value k = mkmetric NaN NaN
               /\ kpi_frequency k = mkmetric NaN NaN
     | Raise _ => False
     end.
Proof. split; [reflexivity|]. vm_compute. split; reflexivity. Qed.

Lemma Qzero_average (s : list Q) :
  s <> [] -> Qzero (average s) = Qzero (series_sum s).
Proof.
  intros Hs. destruct (Qzero (series_sum s)) eqn:E.
  - apply Qzero_true. apply Qeq_bool_iff in E.
    unfold average. rewrite E. unfold Qdiv. ring.
  - apply Qzero_false. apply average_nonzero; [exact Hs|].
    intros H. apply Qzero_true in H. congruence.
Qed.

Lemma relative_change_is_finite (s s0 : list Q) :
  is_finite (relative_change (series_mean s) (series_mean s0))
  = negb (is_empty s) && negb (is_empty s0) && negb (Qzero (series_sum s0)).
Proof.
  destruct s as [|x s]; [reflexivity|].
  destruct s0 as [|x0 s0]; [reflexivity|].
  rewrite !series_mean_average by discriminate.
  rewrite <- (Qzero_average (x0 :: s0)) by discriminate.
  simpl is_empty. simpl negb at 1 2. simpl andb.
  destruct (Qzero (average (x0 :: s0))) eqn:E.
  - apply relative_change_zero_baseline. simpl. now apply Qeq_bool_iff.
  - rewrite relative_change_finite; [reflexivity|].
    intros H. apply Qzero_true in H. congruence.
Qed.

Lemma kpi_row_without_customers (data : list Txn.row)
    (cluster_filter : list Z) (date_range : list date) :
  kpi_row data [] cluster_filter date_range = Raise ZeroDivisionError.
Proof.
  unfold kpi_row.
  replace (filtered_customers data [] cluster_filter date_range)
    with (@nil Cust.row); [reflexivity|].
  unfold filtered_customers, sidebar_filter.
  destruct date_range as [|s [|e [|x dr]]]; reflexivity.
Qed.

Lemma kpi_row_without_transactions (customers : list Cust.row)
    (cluster_filter : list Z) (date_range : list date) :
  kpi_row [] customers cluster_filter date_range = Raise ZeroDivisionError.
Proof.
  destruct customers as [|c cs]; [apply kpi_row_without_customers|].
  unfold kpi_row.
  rewrite (total_customers_ok _ (c :: cs)) by discriminate.
  reflexivity.
Qed.

(** C4, amended.  When both tables have rows, all four tiles are
    computed.  On an empty filtered view the customer count is 0 and the
    revenue is 0, while the two means are NaN and so are their deltas: zero
    and undefined differ, but the undefined value is NaN itself, handed to
    the tile.  A zero baseline is divided by: the revenue delta is finite
    only when the baseline revenue is not zero, and the delta of a mean
    only when the filtered series is not empty and the baseline sum is not
    zero; otherwise it is NaN or an infinity.  When the customer table or
    the transaction table has no row at all, the integer division of the
    first, respectively the second, tile raises [ZeroDivisionError]. *)
Theorem undefined_kpis :
  forall (data : list Txn.row) (customers : list Cust.row)
         (cluster_filter : list Z) (date_range : list date),
    let fd := filtered_data data customers cluster_filter date_range in
    let fc := filtered_customers data customers cluster_filter date_range in
    (data <> [] -> customers <> [] ->
     exists k,
       kpi_row data customers cluster_filter date_range = Ok k
       /\ (fd = [] ->
           (value (kpi_revenue k) == 0)%Q
           /\ kpi_order_value k = mkmetric NaN NaN)
       /\ (fc = [] ->
           value (kpi_customers k) = 0
           /\ kpi_frequency k = mkmetric NaN NaN)
       /\ is_finite (delta (kpi_revenue k))
          = negb (Qzero (series_sum (map Txn.purchase_amount data)))
       /\ is_finite (delta (kpi_order_value k))
          = negb (is_empty fd)
            && negb (Qzero (series_sum (map Txn.purchase_amount data)))
       /\ is_finite (delta (kpi_frequency k))
          = negb (is_empty fc)
            && negb (Qzero (series_sum (map Cust.frequency customers))))
    /\ kpi_row data [] cluster_filter date_range = Raise ZeroDivisionError
    /\ kpi_row [] customers cluster_filter date_range
       = Raise ZeroDivisionError.
Proof.
  intros data customers cluster_filter date_range fd fc.
  split; [|split;
           [apply kpi_row_without_customers
           |apply kpi_row_without_transactions]].
  intros Hdata Hcust.
  assert (Hmap : forall (A : Type) (f : A -> Q) (l : list A),
             is_empty (map f l) = is_empty l).
  { intros A f [|x l]; reflexivity. }
  assert (Hfull : forall (A : Type) (l : list A), l <> [] -> is_empty l = false).
  { intros A [|x l]; [congruence | reflexivity]. }
  unfold kpi_row. fold fd. fold fc.
  rewrite (total_customers_ok fc customers Hcust). simpl bind.
  rewrite (total_revenue_ok fd data Hdata). simpl bind.
  eexists. split; [reflexivity|].
  cbn [kpi_customers kpi_revenue kpi_order_value kpi_frequency value delta].
  split; [|split; [|split; [|split]]].
  - intros ->. split; reflexivity.
  - intros ->. split; reflexivity.
  - simpl.
    destruct (Qzero (series_sum (map Txn.purchase_amount data)));
      [|reflexivity].
    destruct (Qzero (series_sum (map Txn.purchase_amount fd)));
      [reflexivity|].
    unfold inf_of_sign.
    destruct (Qpos (series_sum (map Txn.purchase_amount fd))); reflexivity.
  - unfold average_order_value. cbn [delta].
    rewrite relative_change_is_finite, !Hmap, (Hfull _ data Hdata).
    now rewrite andb_true_r.
  - unfold average_purchase_frequency. cbn [delta].
    rewrite relative_change_is_finite, !Hmap, (Hfull _ customers Hcust).
    now rewrite andb_true_r.
Qed.

Lemma undefined_kpis_witness :
  exists k,
    kpi_row refund_log two_customers both_segments next_year = Ok k
    /\ kpi_order_value k = mkmetric NaN NaN
    /\ kpi_frequency k = mkmetric NaN NaN.
Proof.
  destruct (undefined_kpis refund_log two_customers both_segments next_year)
    as [Hrow _].
  destruct Hrow as [k [Hk [Hfd [Hfc _]]]].
  - discriminate.
  - discriminate.
  - exists k. split; [exact Hk|]. split.
    + apply Hfd. reflexivity.
    + apply Hfc. reflexivity.
Defined.

(** ** The join and the monthly buckets *)

Lemma no_match_iff (customers : list Cust.row) (t : Txn.row) :
  filter (fun c => Cust.customer_id c =? Txn.customer_id t) customers = []
  <-> has_customer customers t = false.
Proof.
  unfold has_customer, isin.
  induction customers as [|c cs IH]; simpl.
  - tauto.
  - rewrite (Z.eqb_sym (Txn.customer_id t)).
    destruct (Cust.customer_id c =? Txn.customer_id t); simpl.
    + split; discriminate.
    + exact IH.
Qed.

Lemma filter_absent (customers : list Cust.row) (x : Z) :
  ~ In x (map Cust.customer_id customers) ->
  filter (fun c => Cust.customer_id c =? x) customers = [].
Proof.
  induction customers as [|c cs IH]; simpl; intros Hx.
  - reflexivity.
  - destruct (Z.eqb_spec (Cust.customer_id c) x) as [E|E].
    + exfalso. apply Hx. now left.
    + apply IH. intros H. apply Hx. now right.
Qed.

Lemma match_unique (customers : list Cust.row) (x : Z) :
  NoDup (map Cust.customer_id customers) ->
  (List.length (filter (fun c => Z.eqb (Cust.customer_id c) x) customers)
   <= 1)%nat.
Proof.
  induction customers as [|c cs IH]; simpl; intros Hnd.
  - lia.
  - inversion Hnd as [|? ? Hnotin Hnd']; subst.
    destruct (Z.eqb_spec (Cust.customer_id c) x) as [E|E].
    + rewrite filter_absent by (now rewrite <- E). simpl. lia.
    + now apply IH.
Qed.

Lemma merge_left_cons (t : Txn.row) (left : list Txn.row)
    (right : list Cust.row) :
  merge_left (t :: left) right = merge_left [t] right ++ merge_left left right.
Proof. unfold merge_left. simpl. now rewrite app_nil_r. Qed.

Lemma merge_left_unmatched (t : Txn.row) (right : list Cust.row) :
  has_customer right t = false -> merge_left [t] right = [Joined.mk t None].
Proof.
  intros H. apply no_match_iff in H. unfold merge_left. simpl.
  now rewrite H.
Qed.

Lemma merge_left_matched (t : Txn.row) (right : list Cust.row) :
  has_customer right t = true ->
  merge_left [t] right
  = map (fun c => Joined.mk t (Some (Cust.cluster c)))
        (filter (fun c => Cust.customer_id c =? Txn.customer_id t) right).
Proof.
  intros H. unfold merge_left. simpl. rewrite app_nil_r.
  destruct (filter (fun c => Cust.customer_id c =? Txn.customer_id t) right)
    eqn:E; [|reflexivity].
  apply no_match_iff in E. congruence.
Qed.

Lemma merge_left_In (left : list Txn.row) (right : list Cust.row)
    (j : Joined.row) :
  In j (merge_left left right) <->
  In (Joined.txn j) left
  /\ match Joined.cluster j with
     | None => has_customer right (Joined.txn j) = false
     | Some k => exists c, In c right
                           /\ Cust.customer_id c = Txn.customer_id (Joined.txn j)
                           /\ Cust.cluster c = k
     end.
Proof.
  induction left as [|t left IH].
  - simpl. tauto.
  - rewrite merge_left_cons, in_app_iff, IH. clear IH.
    destruct (has_customer right t) eqn:Ht.
    + rewrite (merge_left_matched t right Ht), in_map_iff. split.
      * intros [[c [<- Hc]]|[Hin Hj]].
        -- apply filter_In in Hc. destruct Hc as [Hc Hid].
           apply Z.eqb_eq in Hid. simpl. split; [now left|]. eauto.
        -- split; [now right | exact Hj].
      * intros [[Heq|Hin] Hj]; [|right; split; assumption].
        destruct j as [t' [k|]]; simpl in *; subst t'.
        -- destruct Hj as [c [Hc [Hid Hk]]]. left. exists c.
           split; [now rewrite Hk|].
           apply filter_In. split; [exact Hc | now apply Z.eqb_eq].
        -- congruence.
    + rewrite (merge_left_unmatched t right Ht). simpl. split.
      * intros [[<-|[]]|[Hin Hj]]; simpl; [split; [now left | exact Ht]|].
        split; [now right | exact Hj].
      * intros [[Heq|Hin] Hj]; [|right; split; assumption].
        destruct j as [t' [k|]]; simpl in *; subst t'.
        -- destruct Hj as [c [Hc [Hid Hk]]]. exfalso.
           assert (H : has_customer right t = true).
           { unfold has_customer. apply isin_In. rewrite <- Hid.
             now apply in_map. }
           congruence.
        -- now left; left.
Qed.

Lemma keyed_revenue (left : list Txn.row) (right : list Cust.row) :
  NoDup (map Cust.customer_id right) ->
  (series_sum (map amount_of (filter keyed_row (merge_left left right)))
   == series_sum (map Txn.purchase_amount (filter (has_customer right) left)))%Q.
Proof.
  intros Hnd. induction left as [|t left IH].
  - reflexivity.
  - rewrite merge_left_cons, filter_app, map_app, series_sum_app, IH.
    change (filter (has_customer right) (t :: left))
      with (if has_customer right t
            then t :: filter (has_customer right) left
            else filter (has_customer right) left).
    destruct (has_customer right t) eqn:Ht.
    + rewrite (merge_left_matched t right Ht).
      pose proof (match_unique right (Txn.customer_id t) Hnd) as Hlen.
      destruct (filter (fun c => Cust.customer_id c =? Txn.customer_id t) right)
        as [|c [|c' ms]] eqn:E.
      * apply no_match_iff in E. congruence.
      * simpl. unfold amount_of. simpl. ring.
      * simpl in Hlen. lia.
    + rewrite (merge_left_unmatched t right Ht). simpl. ring.
Qed.

Lemma rollup_revenue (fd : list Txn.row) (customers : list Cust.row) :
  (series_sum (map Monthly.total_revenue (monthly_rollup fd customers))
   == series_sum (map amount_of
                      (filter keyed_row (merge_left fd customers))))%Q.
Proof.
  unfold monthly_rollup, monthly_groups, filtered_data_with_cluster.
  rewrite map_map.
  rewrite (map_ext (fun g => Monthly.total_revenue (aggregate g))
                   (fun g => series_sum (map amount_of (snd g))))
    by (intros [k g]; reflexivity).
  rewrite <- (series_sum_flat_map amount_of snd).
  apply series_sum_perm, Permutation_map.
  apply groupby_flat.
Qed.


Lemma grouped_rows_have_customers (fd : list Txn.row)
    (customers : list Cust.row) (g : bucket * list Joined.row)
    (j : Joined.row) :
  In g (monthly_groups fd customers) -> In j (snd g) ->
  In (Joined.txn j) fd
  /\ In (Txn.customer_id (Joined.txn j)) (map Cust.customer_id customers)
  /\ bucket_key j = Some (fst g).
Proof.
  destruct g as [k rows]. intros Hg Hj. simpl in *.
  apply groupby_In in Hg. destruct Hg as [-> _].
  apply filter_In in Hj. destruct Hj as [Hj Hk].
  apply has_key_true in Hk. pose proof Hk as Hkey.
  apply merge_left_In in Hj. destruct Hj as [Hfd Hc].
  unfold bucket_key in Hk.
  destruct (Joined.cluster j) as [c|]; [|discriminate].
  destruct Hc as [c' [Hin [Hid _]]].
  repeat split; [exact Hfd | | exact Hkey].
  rewrite <- Hid. now apply in_map.
Qed.




(** C3, as the claim states it, fails: the three purchases of the filtered
    view sum to 200, the roll-up to the 120 of the one customer that has a
    row in the customer table. *)
Lemma revenue_conservation_counterexample :
  let fd := filtered_data walk_in_log two_customers both_segments [] in
  let md := monthly_data walk_in_log two_customers both_segments [] in
  (series_sum (map Txn.purchase_amount fd) == 200)%Q
  /\ (series_sum (map Monthly.total_revenue md) == 120)%Q
  /\ ~ (series_sum (map Monthly.total_revenue md)
        == series_sum (map Txn.purchase_amount fd))%Q.
Proof.
  split; [reflexivity|]. split; [reflexivity|].
  vm_compute. discriminate.
Qed.

Lemma single_match (customers : list Cust.row) (t : Txn.row) :
  NoDup (map Cust.customer_id customers) ->
  has_customer customers t = true ->
  exists c,
    filter (fun c => Cust.customer_id c =? Txn.customer_id t) customers = [c].
Proof.
  intros Hnd Ht.
  pose proof (match_unique customers (Txn.customer_id t) Hnd) as Hlen.
  destruct (filter (fun c => Cust.customer_id c =? Txn.customer_id t) customers)
    as [|c [|c' ms]] eqn:E.
  - apply no_match_iff in E. congruence.
  - now exists c.
  - simpl in Hlen. lia.
Qed.

Lemma merged_txns (fd : list Txn.row) (customers : list Cust.row) :
  NoDup (map Cust.customer_id customers) ->
  map Joined.txn (merge_left fd customers) = fd.
Proof.
  intros Hnd. induction fd as [|t fd IH]; [reflexivity|].
  rewrite merge_left_cons, map_app, IH.
  destruct (has_customer customers t) eqn:Ht.
  - rewrite (merge_left_matched t customers Ht).
    destruct (single_match customers t Hnd Ht) as [c ->]. reflexivity.
  - now rewrite (merge_left_unmatched t customers Ht).
Qed.

Lemma keyed_txns (fd : list Txn.row) (customers : list Cust.row) :
  NoDup (map Cust.customer_id customers) ->
  map Joined.txn (filter keyed_row (merge_left fd customers))
  = filter (has_customer customers) fd.
Proof.
  intros Hnd. induction fd as [|t fd IH]; [reflexivity|].
  rewrite merge_left_cons, filter_app, map_app, IH.
  change (filter (has_customer customers) (t :: fd))
    with (if has_customer customers t
          then t :: filter (has_customer customers) fd
          else filter (has_customer customers) fd).
  destruct (has_customer customers t) eqn:Ht.
  - rewrite (merge_left_matched t customers Ht).
    destruct (single_match customers t Hnd Ht) as [c ->]. reflexivity.
  - now rewrite (merge_left_unmatched t customers Ht).
Qed.

(** C3, amended.  When customer ids are unique in the customer table, the
    transactions whose amounts are summed into the buckets of the monthly
    roll-up are the filtered transactions whose customer has a row in the
    customer table, each in one bucket, once; the revenue of a bucket is
    the sum of the amounts of its own rows.  The transactions of absent
    customers are in no bucket.  Hence, in exact arithmetic, the revenues of
    the roll-up add up to the sum of the purchase amounts of the filtered
    transactions whose customer has a row; the binary64 sums, taken in
    bucket order on one side and in table order on the other, agree up to
    rounding only. *)
Theorem rollup_revenue_of_known_customers :
  forall (data : list Txn.row) (customers : list Cust.row)
         (cluster_filter : list Z) (date_range : list date),
    let fd := filtered_data data customers cluster_filter date_range in
    let md := monthly_data data customers cluster_filter date_range in
    NoDup (map Cust.customer_id customers) ->
    Permutation (map Joined.txn (flat_map snd (monthly_groups fd customers)))
                (filter (has_customer customers) fd)
    /\ map Monthly.total_revenue md
       = map (fun g => series_sum (map amount_of (snd g)))
             (monthly_groups fd customers)
    /\ (series_sum (map Monthly.total_revenue md)
        == series_sum (map Txn.purchase_amount
                           (filter (has_customer customers) fd)))%Q.
Proof.
  intros data customers cluster_filter date_range fd md Hnd.
  split; [|split].
  - rewrite <- (keyed_txns fd customers Hnd). apply Permutation_map.
    unfold monthly_groups, filtered_data_with_cluster. apply groupby_flat.
  - unfold md, monthly_data, monthly_rollup. fold fd.
    rewrite map_map. apply map_ext. intros [k g]. reflexivity.
  - unfold md, monthly_data. fold fd.
    rewrite rollup_revenue. now apply keyed_revenue.
Qed.

Lemma rollup_revenue_of_known_customers_witness :
  Permutation
    (map Joined.txn
         (flat_map snd
            (monthly_groups
               (filtered_data spring_walk_in_log three_customers
                              both_segments year_2024)
               three_customers)))
    spring_log
  /\ (series_sum (map Monthly.total_revenue
                      (monthly_data spring_walk_in_log three_customers
                                    both_segments year_2024))
      == 200)%Q.
Proof.
  destruct (rollup_revenue_of_known_customers
              spring_walk_in_log three_customers both_segments year_2024)
    as [Hperm [_ Hsum]].
  - repeat (constructor; [simpl; intuition discriminate|]). constructor.
  - split; [exact Hperm | rewrite Hsum; reflexivity].
Defined.

(** ** The segment profile *)

Lemma one_segment_groups (fc : list Cust.row) (k : Z) :
  map fst (segment_groups fc) = [k] -> segment_groups fc = [(k, fc)].
Proof.
  intros Hk.
  pose proof (segment_groups_partition fc) as Hperm.
  destruct (segment_groups fc) as [|[k' g] [|g' gs]] eqn:E;
    try discriminate.
  injection Hk as ->.
  assert (Hg : In (k, g) (segment_groups fc)) by (rewrite E; now left).
  apply segment_groups_In in Hg. destruct Hg as [Hg _]. simpl in Hg, Hperm.
  rewrite app_nil_r in Hperm. f_equal. f_equal.
  rewrite Hg. apply filter_forallb. apply forallb_forall. intros c Hc.
  apply (Permutation_in c (Permutation_sym Hperm)) in Hc.
  rewrite Hg in Hc. apply filter_In in Hc. tauto.
Qed.

Lemma fdiv_self (a : Q) : ~ (a == 0)%Q -> feq (fdiv (Fin a) (Fin a)) (Fin 1).
Proof.
  intros Ha. rewrite fdiv_finite by exact Ha. simpl. now apply Qmult_inv_r.
Qed.

Lemma one_minus_self (a : Q) :
  ~ (a == 0)%Q -> feq (fsub (of_int 1) (fdiv (Fin a) (Fin a))) (Fin 0).
Proof.
  intros Ha. rewrite fdiv_finite by exact Ha. simpl.
  unfold Qdiv. rewrite Qmult_inv_r by exact Ha. reflexivity.
Qed.

(** C7, as the claim states it, fails: the only segment present has a mean
    recency of 0, and its recency coordinate is NaN, not 0. *)
Lemma single_segment_counterexample :
  let fc := filtered_customers refund_log fresh_loyalist [1] january in
  map fst (segment_groups fc) = [1]
  /\ map recency_coordinate (segment_profile fc) = [NaN].
Proof. split; reflexivity. Qed.

(** C7, amended.  If exactly one segment is present in the filtered
    customers and its mean monetary value, frequency, recency and customer
    value score are all different from zero, the profile is the single
    trace of that segment, with coordinates 1, 1, 0 and 1 (monetary,
    frequency, inverted recency, customer value score), computed by the
    same divisions by the column maximum as in the general case. *)
Theorem single_segment_profile :
  forall (fc : list Cust.row) (k : Z),
    map fst (segment_groups fc) = [k] ->
    ~ (average (map Cust.monetary fc) == 0)%Q ->
    ~ (average (map Cust.frequency fc) == 0)%Q ->
    ~ (average (map Cust.recency fc) == 0)%Q ->
    ~ (average (map Cust.customer_value_score fc) == 0)%Q ->
    exists t,
      segment_profile fc = [t]
      /\ Forall2 feq (r t) [Fin 1; Fin 1; Fin 0; Fin 1]
      /\ name t = dict_map segment_names k.
Proof.
  intros fc k Hk Hm Hf Hr Hs.
  assert (Hne : fc <> []).
  { intros ->. discriminate Hk. }
  assert (Hmap : forall f : Cust.row -> Q, map f fc <> []).
  { intros f. destruct fc; [congruence | discriminate]. }
  unfold segment_profile, cluster_metrics.
  rewrite (one_segment_groups fc k Hk). simpl map.
  rewrite !series_mean_average by apply Hmap.
  eexists. split; [reflexivity|]. simpl r. simpl name. split; [|reflexivity].
  repeat constructor.
  - now apply fdiv_self.
  - now apply fdiv_self.
  - now apply one_minus_self.
  - now apply fdiv_self.
Qed.

Lemma single_segment_profile_witness :
  exists t,
    segment_profile [customer 7 1 1200 4 10 8] = [t]
    /\ Forall2 feq (r t) [Fin 1; Fin 1; Fin 0; Fin 1]
    /\ name t = Some "High-Value Loyalists"%string.
Proof.
  apply (single_segment_profile [customer 7 1 1200 4 10 8] 1).
  - reflexivity.
  - vm_compute. discriminate.
  - vm_compute. discriminate.
  - vm_compute. discriminate.
  - vm_compute. discriminate.
Defined.

Lemma series_max_bound (s : list float64) :
  Forall nonneg s ->
  (s = [] /\ series_max s = NaN)
  \/ exists m, series_max s = Fin m
               /\ Forall (fun x => exists a, x = Fin a /\ (a <= m)%Q) s.
Proof.
  induction s as [|x s IH]; intros Hall.
  - left. split; reflexivity.
  - right. inversion Hall as [|? ? Hx Hs]; subst.
    destruct x as [b| | |]; simpl in Hx; try contradiction.
    destruct (IH Hs) as [[-> Hmax]|[m [Hmax Hle]]].
    + exists b. split; [reflexivity|].
      constructor; [|constructor]. exists b. split; [reflexivity | apply Qle_refl].
    + simpl. rewrite Hmax. simpl.
      destruct (Qle_bool m b) eqn:E.
      * exists b. split; [reflexivity|]. apply Qle_bool_iff in E.
        constructor.
        -- exists b. split; [reflexivity | apply Qle_refl].
        -- eapply Forall_impl; [|exact Hle]. simpl.
           intros y [a [-> Ha]]. exists a. split; [reflexivity|].
           now apply Qle_trans with m.
      * exists m. split; [reflexivity|].
        constructor; [|exact Hle].
        exists b. split; [reflexivity|].
        apply Qlt_le_weak, Qnot_le_lt. intros H.
        apply Qle_bool_iff in H. congruence.
Qed.

Lemma ratio_in_unit (a m : Q) :
  (0 <= a)%Q -> (a <= m)%Q -> (0 < m)%Q ->
  in_unit (fdiv (Fin a) (Fin m))
  /\ in_unit (fsub (of_int 1) (fdiv (Fin a) (Fin m))).
Proof.
  intros H0 Hle Hm.
  assert (Hnz : ~ (m == 0)%Q) by (intros E; rewrite E in Hm; now apply (Qlt_irrefl 0)).
  rewrite fdiv_finite by exact Hnz. simpl.
  assert (Hq : (0 <= a / m <= 1)%Q).
  { split.
    - apply Qle_shift_div_l; [exact Hm|]. now rewrite Qmult_0_l.
    - apply Qle_shift_div_r; [exact Hm|]. now rewrite Qmult_1_l. }
  change (inject_Z 1) with 1%Q. split; [exact Hq|].
  destruct Hq. split; lra.
Qed.

(** Every entry of a non-negative column with a positive maximum, divided by
    that maximum, lies in [0, 1], and so does one minus the quotient. *)
Lemma normalized_column (col : Metrics.row -> float64)
    (cm : list Metrics.row) :
  Forall (fun m => nonneg (col m)) cm ->
  positive (series_max (map col cm)) ->
  Forall (fun m =>
            in_unit (fdiv (col m) (series_max (map col cm)))
            /\ in_unit (fsub (of_int 1)
                             (fdiv (col m) (series_max (map col cm)))))
         cm.
Proof.
  intros Hnn Hpos.
  assert (Hnn' : Forall nonneg (map col cm)).
  { apply Forall_map. exact Hnn. }
  destruct (series_max_bound (map col cm) Hnn') as [[_ Hnan]|[mx [Hmax Hle]]].
  - rewrite Hnan in Hpos. destruct Hpos.
  - rewrite Hmax in *. simpl in Hpos.
    apply Forall_forall. intros m Hm.
    rewrite Forall_forall in Hle, Hnn.
    destruct (Hle (col m) (in_map col cm m Hm)) as [a [Ha Hale]].
    specialize (Hnn m Hm). rewrite Ha in *. simpl in Hnn.
    now apply ratio_in_unit.
Qed.

(** C8, as the claim states it, fails: with two segments present, a mean
    recency of 0 in both makes the recency coordinates NaN, and the negative
    mean score of segment 0 gives it a score coordinate of -1/2. *)
Lemma normalization_bound_counterexample :
  let fc := filtered_customers refund_log signed_scores both_segments
                               year_2024 in
  let p := segment_profile fc in
  map fst (segment_groups fc) = [0; 1]
  /\ map recency_coordinate p = [NaN; NaN]
  /\ Forall2 feq (map score_coordinate p) [Fin (-1 # 2); Fin 1]
  /\ ~ Forall (fun t => Forall in_unit (r t)) p.
Proof.
  split; [reflexivity|]. split; [reflexivity|]. split.
  - repeat constructor.
  - intros H. inversion H as [|t p' Ht _]; subst.
    inversion Ht as [|x0 l0 _ H1]; subst.
    inversion H1 as [|x1 l1 _ H2]; subst.
    inversion H2 as [|x2 l2 H3 _]; subst.
    exact H3.
Qed.

(** C8, amended.  When every per-segment mean of the four metrics is a
    non-negative number and, for each metric, the largest per-segment mean
    is positive, every coordinate of every trace of the profile lies in
    [0, 1]. *)
Theorem normalization_bound :
  forall fc : list Cust.row,
    let cm := cluster_metrics fc in
    Forall (fun m => nonneg (Metrics.monetary m)
                     /\ nonneg (Metrics.frequency m)
                     /\ nonneg (Metrics.recency m)
                     /\ nonneg (Metrics.customer_value_score m)) cm ->
    positive (series_max (map Metrics.monetary cm)) ->
    positive (series_max (map Metrics.frequency cm)) ->
    positive (series_max (map Metrics.recency cm)) ->
    positive (series_max (map Metrics.customer_value_score cm)) ->
    Forall (fun t => Forall in_unit (r t)) (segment_profile fc).
Proof.
  intros fc cm Hnn Hm Hf Hr Hs.
  unfold segment_profile. fold cm. unfold radar_traces.
  apply Forall_map. simpl r.
  assert (H1 := normalized_column Metrics.monetary cm
                  (Forall_impl _ (fun m H => proj1 H) Hnn) Hm).
  assert (H2 := normalized_column Metrics.frequency cm
                  (Forall_impl _ (fun m H => proj1 (proj2 H)) Hnn) Hf).
  assert (H3 := normalized_column Metrics.recency cm
                  (Forall_impl _ (fun m H => proj1 (proj2 (proj2 H))) Hnn)
                  Hr).
  assert (H4 := normalized_column Metrics.customer_value_score cm
                  (Forall_impl _ (fun m H => proj2 (proj2 (proj2 H))) Hnn)
                  Hs).
  rewrite Forall_forall in H1, H2, H3, H4.
  apply Forall_forall. intros m Hin.
  destruct (H1 m Hin) as [G1 _]. destruct (H2 m Hin) as [G2 _].
  destruct (H3 m Hin) as [_ G3]. destruct (H4 m Hin) as [G4 _].
  apply Forall_forall.
  intros x [<-|[<-|[<-|[<-|[]]]]]; assumption.
Qed.

Lemma normalization_bound_witness :
  Forall (fun t => Forall in_unit (r t)) (segment_profile two_customers).
Proof.
  apply (normalization_bound two_customers).
  - repeat constructor; vm_compute; discriminate.
  - vm_compute. reflexivity.
  - vm_compute. reflexivity.
  - vm_compute. reflexivity.
  - vm_compute. reflexivity.
Defined.

(** * Further properties of the script *)

(** ** Dates and distinct values *)

Lemma date_le_refl (a : date) : date_le a a.
Proof. unfold date_le. lia. Qed.

Lemma date_le_trans (a b c : date) : date_le a b -> date_le b c -> date_le a c.
Proof. unfold date_le. lia. Qed.

Lemma date_le_total (a b : date) : date_le a b \/ date_le b a.
Proof. unfold date_le. lia. Qed.

Lemma date_leb_false (a b : date) : date_leb a b = false -> date_le b a.
Proof.
  intros H. destruct (date_le_total a b) as [Hab|Hba]; [|exact Hba].
  apply date_leb_le in Hab. congruence.
Qed.

Lemma ts_leb_true (a b : timestamp) :
  ts_leb a b = true -> date_le (ts_date a) (ts_date b).
Proof.
  unfold ts_leb. destruct (date_leb (ts_date a) (ts_date b)) eqn:E.
  - intros _. now apply date_leb_le.
  - discriminate.
Qed.

Lemma ts_leb_false (a b : timestamp) :
  ts_leb a b = false -> date_le (ts_date b) (ts_date a).
Proof.
  unfold ts_leb. destruct (date_leb (ts_date a) (ts_date b)) eqn:E.
  - destruct (date_leb (ts_date b) (ts_date a)) eqn:E'.
    + intros _. now apply date_leb_le.
    + discriminate.
  - intros _. now apply date_leb_false.
Qed.

Lemma ts_min_spec (s : list timestamp) (m : timestamp) :
  ts_min s = Some m ->
  In m s /\ Forall (fun t => date_le (ts_date m) (ts_date t)) s.
Proof.
  revert m. induction s as [|x s IH]; simpl; intros m Hm; [discriminate|].
  destruct (ts_min s) as [m'|] eqn:E.
  - destruct (IH m' eq_refl) as [Hin Hall].
    destruct (ts_leb x m') eqn:L; injection Hm as <-.
    + split; [now left|]. constructor; [apply date_le_refl|].
      eapply Forall_impl; [|exact Hall]. simpl. intros t Ht.
      apply date_le_trans with (ts_date m'); [now apply ts_leb_true | exact Ht].
    + split; [now right|]. constructor; [now apply ts_leb_false | exact Hall].
  - injection Hm as <-. destruct s as [|y s].
    + split; [now left|]. constructor; [apply date_le_refl | constructor].
    + simpl in E. destruct (ts_min s); discriminate.
Qed.

Lemma ts_max_spec (s : list timestamp) (m : timestamp) :
  ts_max s = Some m ->
  In m s /\ Forall (fun t => date_le (ts_date t) (ts_date m)) s.
Proof.
  revert m. induction s as [|x s IH]; simpl; intros m Hm; [discriminate|].
  destruct (ts_max s) as [m'|] eqn:E.
  - destruct (IH m' eq_refl) as [Hin Hall].
    destruct (ts_leb m' x) eqn:L; injection Hm as <-.
    + split; [now left|]. constructor; [apply date_le_refl|].
      eapply Forall_impl; [|exact Hall]. simpl. intros t Ht.
      apply date_le_trans with (ts_date m'); [exact Ht | now apply ts_leb_true].
    + split; [now right|]. constructor; [now apply ts_leb_false | exact Hall].
  - injection Hm as <-. destruct s as [|y s].
    + split; [now left|]. constructor; [apply date_le_refl | constructor].
    + simpl in E. destruct (ts_max s); discriminate.
Qed.

Lemma ts_min_some (s : list timestamp) : s <> [] -> exists m, ts_min s = Some m.
Proof.
  destruct s as [|x s]; [congruence|]. intros _. simpl.
  destruct (ts_min s); eauto.
Qed.

Lemma ts_max_some (s : list timestamp) : s <> [] -> exists m, ts_max s = Some m.
Proof.
  destruct s as [|x s]; [congruence|]. intros _. simpl.
  destruct (ts_max s); eauto.
Qed.

Lemma unique_In (s : list Z) (x : Z) : In x (unique s) <-> In x s.
Proof.
  induction s as [|y s IH]; simpl; [tauto|].
  rewrite filter_In, IH, negb_true_iff, Z.eqb_neq.
  destruct (Z.eq_dec y x); intuition congruence.
Qed.

Lemma unique_NoDup (s : list Z) : NoDup (unique s).
Proof.
  induction s as [|y s IH]; simpl; constructor.
  - rewrite filter_In, negb_true_iff, Z.eqb_neq. tauto.
  - now apply NoDup_filter.
Qed.


Lemma nunique_le_count (s : list Z) : nunique s <= count s.
Proof.
  unfold nunique, count. apply inj_le.
  apply NoDup_incl_length; [apply unique_NoDup|].
  intros x. apply unique_In.
Qed.

(** ** The filtered customer view *)

Lemma filtered_data_In (data : list Txn.row) (customers : list Cust.row)
    (cluster_filter : list Z) (s e : date) (t : Txn.row) :
  In t (filtered_data data customers cluster_filter [s; e])
  <-> In t data
      /\ date_le s (ts_date (Txn.order_date t))
      /\ date_le (ts_date (Txn.order_date t)) e.
Proof.
  unfold filtered_data. simpl. now rewrite filter_In, in_date_range_spec.
Qed.

Lemma filtered_customers_In_range (data : list Txn.row)
    (customers : list Cust.row) (cluster_filter : list Z) (s e : date)
    (c : Cust.row) :
  In c (filtered_customers data customers cluster_filter [s; e])
  <-> In c customers
      /\ In (Cust.cluster c) cluster_filter
      /\ exists t, In t data
                   /\ Txn.customer_id t = Cust.customer_id c
                   /\ date_le s (ts_date (Txn.order_date t))
                   /\ date_le (ts_date (Txn.order_date t)) e.
Proof.
  unfold filtered_customers. simpl.
  rewrite filter_In, andb_true_iff, !isin_In, unique_In, in_map_iff.
  split.
  - intros [Hc [[t [Hid Ht]] Hseg]].
    apply filter_In in Ht. destruct Ht as [Ht Hr].
    apply in_date_range_spec in Hr. eauto 8.
  - intros [Hc [Hseg [t [Ht [Hid Hr]]]]].
    split; [exact Hc|]. split; [|exact Hseg].
    exists t. split; [exact Hid|].
    apply filter_In. split; [exact Ht | now apply in_date_range_spec].
Qed.

Lemma filtered_customers_In_plain (data : list Txn.row)
    (customers : list Cust.row) (cluster_filter : list Z)
    (date_range : list date) (c : Cust.row) :
  List.length date_range <> 2%nat ->
  (In c (filtered_customers data customers cluster_filter date_range)
   <-> In c customers /\ In (Cust.cluster c) cluster_filter).
Proof.
  destruct date_range as [|s [|e [|x dr]]]; intros Hlen;
    try (exfalso; now apply Hlen);
    unfold filtered_customers; simpl; now rewrite filter_In, isin_In.
Qed.

(** X1.  The filtered customer view is the customer table restricted, in
    table order, to some rows: with a date range, the customers of a
    selected segment that have at least one transaction dated within the
    range; without one, the customers of a selected segment. *)
Theorem filtered_customers_membership :
  forall (data : list Txn.row) (customers : list Cust.row)
         (cluster_filter : list Z),
    (forall date_range, exists keep,
          filtered_customers data customers cluster_filter date_range
          = filter keep customers)
    /\ (forall start_date end_date c,
           In c (filtered_customers data customers cluster_filter
                                    [start_date; end_date])
           <-> In c customers
               /\ In (Cust.cluster c) cluster_filter
               /\ exists t, In t data
                            /\ Txn.customer_id t = Cust.customer_id c
                            /\ date_le start_date (ts_date (Txn.order_date t))
                            /\ date_le (ts_date (Txn.order_date t)) end_date)
    /\ (forall date_range c,
           List.length date_range <> 2%nat ->
           (In c (filtered_customers data customers cluster_filter date_range)
            <-> In c customers /\ In (Cust.cluster c) cluster_filter)).
Proof.
  intros data customers cluster_filter. split; [|split].
  - intros [|s [|e [|x dr]]]; eexists; reflexivity.
  - intros s e c. apply filtered_customers_In_range.
  - intros dr c. apply filtered_customers_In_plain.
Qed.

Lemma filtered_customers_membership_witness :
  In (customer 7 1 1200 4 10 8)
     (filtered_customers refund_log two_customers [1] []).
Proof.
  apply (proj2 (proj2 (filtered_customers_membership
                         refund_log two_customers [1]))).
  - simpl. discriminate.
  - split; simpl; now left.
Defined.

(** X2.  Narrowing the date range only removes rows: the transactions and
    the customers of a range are among those of any wider range, and the
    customers of any range are among those shown without a range. *)
Theorem narrower_range_shows_less :
  forall (data : list Txn.row) (customers : list Cust.row)
         (cluster_filter : list Z) (s e s' e' : date),
    date_le s' s -> date_le e e' ->
    incl (filtered_data data customers cluster_filter [s; e])
         (filtered_data data customers cluster_filter [s'; e'])
    /\ incl (filtered_customers data customers cluster_filter [s; e])
            (filtered_customers data customers cluster_filter [s'; e'])
    /\ incl (filtered_customers data customers cluster_filter [s'; e'])
            (filtered_customers data customers cluster_filter []).
Proof.
  intros data customers cluster_filter s e s' e' Hs He.
  split; [|split].
  - intros t Ht. apply filtered_data_In in Ht. apply filtered_data_In.
    destruct Ht as [Ht [H1 H2]]. split; [exact Ht|]. split.
    + now apply date_le_trans with s.
    + now apply date_le_trans with e.
  - intros c Hc. apply filtered_customers_In_range in Hc.
    apply filtered_customers_In_range.
    destruct Hc as [Hc [Hseg [t [Ht [Hid [H1 H2]]]]]].
    split; [exact Hc|]. split; [exact Hseg|]. exists t.
    repeat split; try assumption.
    + now apply date_le_trans with s.
    + now apply date_le_trans with e.
  - intros c Hc. apply filtered_customers_In_range in Hc.
    apply filtered_customers_In_plain; [simpl; discriminate | tauto].
Qed.

Lemma narrower_range_shows_less_witness :
  incl (filtered_data spring_log three_customers both_segments
                      [mkdate 2024 3 1; mkdate 2024 3 31])
       (filtered_data spring_log three_customers both_segments
                      [mkdate 2024 2 1; mkdate 2024 4 30]).
Proof.
  apply (narrower_range_shows_less spring_log three_customers both_segments
           (mkdate 2024 3 1) (mkdate 2024 3 31)
           (mkdate 2024 2 1) (mkdate 2024 4 30)).
  - unfold date_le. simpl. lia.
  - unfold date_le. simpl. lia.
Defined.

(** X3.  Until the user touches the date widget, nothing is filtered out by
    date: on a non-empty transaction table the default range runs from the
    date of the earliest transaction to the date of the latest, both dates
    are dates of transactions, and the filtered transactions are the whole
    table. *)
Theorem default_range_keeps_everything :
  forall (data : list Txn.row) (customers : list Cust.row)
         (cluster_filter : list Z),
    data <> [] ->
    exists lo hi,
      default_date_range data = Some [lo; hi]
      /\ date_le lo hi
      /\ In lo (map (fun t => ts_date (Txn.order_date t)) data)
      /\ In hi (map (fun t => ts_date (Txn.order_date t)) data)
      /\ filtered_data data customers cluster_filter [lo; hi] = data.
Proof.
  intros data customers cluster_filter Hne.
  assert (Hne' : map Txn.order_date data <> []).
  { destruct data; [congruence | discriminate]. }
  destruct (ts_min_some _ Hne') as [lo Hlo].
  destruct (ts_max_some _ Hne') as [hi Hhi].
  exists (ts_date lo), (ts_date hi).
  destruct (ts_min_spec _ _ Hlo) as [Hlo_in Hlo_all].
  destruct (ts_max_spec _ _ Hhi) as [Hhi_in Hhi_all].
  rewrite Forall_forall in Hlo_all, Hhi_all.
  split; [|split; [|split; [|split]]].
  - unfold default_date_range, min_date, max_date. now rewrite Hlo, Hhi.
  - now apply Hlo_all.
  - rewrite <- (map_map Txn.order_date ts_date). now apply in_map.
  - rewrite <- (map_map Txn.order_date ts_date). now apply in_map.
  - unfold filtered_data. simpl. apply filter_forallb.
    apply forallb_forall. intros t Ht. apply in_date_range_spec.
    split; [apply Hlo_all | apply Hhi_all]; now apply in_map.
Qed.

Lemma default_range_keeps_everything_witness :
  exists lo hi,
    default_date_range spring_log = Some [lo; hi]
    /\ filtered_data spring_log three_customers both_segments [lo; hi]
       = spring_log.
Proof.
  destruct (default_range_keeps_everything
              spring_log three_customers both_segments)
    as [lo [hi [Hd [_ [_ [_ Hf]]]]]].
  - discriminate.
  - exists lo, hi. split; assumption.
Defined.

(** ** The KPI tiles once more *)

Lemma filtered_data_is_filter (data : list Txn.row) (customers : list Cust.row)
    (cluster_filter : list Z) (date_range : list date) :
  exists keep,
    filtered_data data customers cluster_filter date_range = filter keep data.
Proof.
  destruct date_range as [|s [|e [|x dr]]];
    try (exists (fun _ => true); unfold filtered_data; simpl;
         symmetry; now apply filter_all).
  exists (in_date_range s e). reflexivity.
Qed.

Lemma filtered_sum_bounds {A : Type} (f : A -> Q) (keep : A -> bool)
    (l : list A) :
  Forall (fun x => (0 <= f x)%Q) l ->
  (0 <= series_sum (map f (filter keep l)) <= series_sum (map f l))%Q.
Proof.
  induction 1 as [|x l Hx _ IH]; simpl.
  - split; apply Qle_refl.
  - destruct (keep x); simpl; lra.
Qed.

Lemma share_bounds (a b : Q) :
  (0 <= a)%Q -> (a <= b)%Q -> (0 < b)%Q ->
  (0 <= a / b * inject_Z 100 <= 100)%Q.
Proof.
  intros H0 Hle Hb.
  assert (Hq : (0 <= a / b <= 1)%Q).
  { split.
    - apply Qle_shift_div_l; [exact Hb|]. now rewrite Qmult_0_l.
    - apply Qle_shift_div_r; [exact Hb|]. now rewrite Qmult_1_l. }
  change (inject_Z 100) with 100%Q. destruct Hq. split; lra.
Qed.

Lemma share_is_percentage (a b : Q) :
  (0 <= a)%Q -> (a <= b)%Q -> (0 < b)%Q ->
  is_percentage (fmul (fdiv (Fin a) (Fin b)) (of_int 100)).
Proof.
  intros H0 Hle Hb.
  assert (Hnz : ~ (b == 0)%Q).
  { intros E. rewrite E in Hb. now apply (Qlt_irrefl 0). }
  rewrite fdiv_finite by exact Hnz. simpl. now apply share_bounds.
Qed.



(** X5.  In exact arithmetic, the sums being taken without rounding or
    overflow: when
    no purchase amount is negative and the table has some revenue, the
    revenue tile does not raise, the filtered revenue lies between 0 and
    the revenue of the table, and the delta of the tile is a percentage
    between 0 and 100, whatever the filters.  (The two sums are computed
    apart; in binary64 each carries its own rounding error, and the
    quotient can pass 100 by that much.) *)
Theorem revenue_share_is_percentage :
  forall (data : list Txn.row) (customers : list Cust.row)
         (cluster_filter : list Z) (date_range : list date),
    Forall (fun t => (0 <= Txn.purchase_amount t)%Q) data ->
    (0 < series_sum (map Txn.purchase_amount data))%Q ->
    exists m,
      total_revenue
        (filtered_data data customers cluster_filter date_range) data = Ok m
      /\ (0 <= value m <= series_sum (map Txn.purchase_amount data))%Q
      /\ is_percentage (delta m).
Proof.
  intros data customers cluster_filter date_range Hnn Hpos.
  assert (Hdata : data <> []).
  { intros ->. simpl in Hpos. now apply (Qlt_irrefl 0). }
  destruct (filtered_data_is_filter data customers cluster_filter date_range)
    as [keep ->].
  destruct (filtered_sum_bounds Txn.purchase_amount keep data Hnn) as [H0 H1].
  rewrite (total_revenue_ok _ data Hdata).
  eexists. split; [reflexivity|]. cbn [value delta].
  split; [now split|]. now apply share_is_percentage.
Qed.

Lemma revenue_share_is_percentage_witness :
  exists m,
    total_revenue
      (filtered_data spring_log three_customers both_segments
                     [mkdate 2024 3 1; mkdate 2024 3 31])
      spring_log = Ok m
    /\ is_percentage (delta m).
Proof.
  destruct (revenue_share_is_percentage
              spring_log three_customers both_segments
              [mkdate 2024 3 1; mkdate 2024 3 31])
    as [m [Hm [_ Hp]]].
  - repeat constructor; vm_compute; discriminate.
  - vm_compute. reflexivity.
  - exists m. split; assumption.
Defined.

(** X6.  When the date filter removes no transaction (no range, or the
    default range) and the table's revenue is not zero, the revenue tile
    does not raise and shows a delta of 100, and the average order value
    tile shows a delta of 0. *)
Theorem unfiltered_tiles_are_neutral :
  forall (data : list Txn.row) (customers : list Cust.row)
         (cluster_filter : list Z) (date_range : list date),
    filtered_data data customers cluster_filter date_range = data ->
    ~ (series_sum (map Txn.purchase_amount data) == 0)%Q ->
    (exists m,
        total_revenue
          (filtered_data data customers cluster_filter date_range) data
        = Ok m
        /\ feq (delta m) (Fin 100))
    /\ feq (delta (average_order_value
                     (filtered_data data customers cluster_filter date_range)
                     data))
           (Fin 0).
Proof.
  intros data customers cluster_filter date_range -> Hnz.
  assert (Hne : map Txn.purchase_amount data <> []).
  { intros E. apply Hnz. now rewrite E. }
  assert (Hdata : data <> []).
  { intros ->. now apply Hne. }
  split.
  - rewrite (total_revenue_ok data data Hdata).
    eexists. split; [reflexivity|]. cbn [delta].
    rewrite fdiv_finite by exact Hnz. simpl.
    change (inject_Z 100) with 100%Q. field. exact Hnz.
  - unfold average_order_value. simpl delta.
    rewrite series_mean_average by exact Hne.
    assert (Ha : ~ (average (map Txn.purchase_amount data) == 0)%Q)
      by now apply average_nonzero.
    rewrite relative_change_finite by exact Ha.
    simpl. field. exact Ha.
Qed.

Lemma unfiltered_tiles_are_neutral_witness :
  exists m,
    total_revenue
      (filtered_data refund_log two_customers both_segments []) refund_log
    = Ok m
    /\ feq (delta m) (Fin 100).
Proof.
  apply (unfiltered_tiles_are_neutral refund_log two_customers both_segments []).
  - reflexivity.
  - vm_compute. discriminate.
Defined.

(** ** Sorted keys *)

Section SortFacts.
Variable K : Type.
Variable kleb : K -> K -> bool.
Hypothesis kleb_total : forall a b, kleb a b = true \/ kleb b a = true.
Hypothesis kleb_trans :
  forall a b c, kleb a b = true -> kleb b c = true -> kleb a c = true.

Lemma insert_key_sorted (k : K) (ks : list K) :
  StronglySorted (fun a b => kleb a b = true) ks ->
  StronglySorted (fun a b => kleb a b = true) (insert_key kleb k ks).
Proof.
  induction ks as [|k' ks IH]; intros Hs; simpl.
  - repeat constructor.
  - inversion Hs as [|? ? Hs' Hall]; subst.
    destruct (kleb k k') eqn:E.
    + constructor; [exact Hs|]. constructor; [exact E|].
      eapply Forall_impl; [|exact Hall]. simpl. intros x Hx.
      now apply kleb_trans with k'.
    + constructor; [now apply IH|].
      apply Forall_forall. intros x Hx.
      apply (Permutation_in x (insert_key_perm K kleb k ks)) in Hx.
      destruct Hx as [<-|Hx].
      * destruct (kleb_total k k') as [H|H]; [congruence | exact H].
      * rewrite Forall_forall in Hall. now apply Hall.
Qed.

Lemma sort_keys_sorted (ks : list K) :
  StronglySorted (fun a b => kleb a b = true) (sort_keys kleb ks).
Proof.
  induction ks as [|k ks IH]; simpl.
  - constructor.
  - now apply insert_key_sorted.
Qed.
End SortFacts.

Lemma sorted_strict {A : Type} (R : A -> A -> Prop) (l : list A) :
  StronglySorted R l -> NoDup l ->
  StronglySorted (fun a b => R a b /\ a <> b) l.
Proof.
  induction 1 as [|a l Hs IH Hall]; intros Hnd.
  - constructor.
  - inversion Hnd as [|? ? Hnotin Hnd']; subst.
    constructor; [now apply IH|].
    apply Forall_forall. intros x Hx. rewrite Forall_forall in Hall.
    split; [now apply Hall|]. intros ->. now apply Hnotin.
Qed.

Lemma sorted_weaken {A : Type} (R R' : A -> A -> Prop) (l : list A) :
  (forall a b, R a b -> R' a b) ->
  StronglySorted R l -> StronglySorted R' l.
Proof.
  intros Himp. induction 1 as [|a l Hs IH Hall]; constructor.
  - exact IH.
  - eapply Forall_impl; [|exact Hall]. intros x. apply Himp.
Qed.

Lemma sorted_map {A B : Type} (f : A -> B) (R : B -> B -> Prop)
    (l : list A) :
  StronglySorted (fun a b => R (f a) (f b)) l -> StronglySorted R (map f l).
Proof.
  induction 1 as [|a l Hs IH Hall]; simpl; constructor.
  - exact IH.
  - apply Forall_map. exact Hall.
Qed.

(** ** The segment distribution *)

Lemma int_sum_perm (a b : list Z) : Permutation a b -> int_sum a = int_sum b.
Proof.
  induction 1 as [|x a b _ IH|x y a|a b c _ IH1 _ IH2]; simpl; lia.
Qed.

Lemma occurrences_cons (v x : Z) (s : list Z) :
  occurrences v (x :: s) = (if x =? v then 1 else 0) + occurrences v s.
Proof.
  unfold occurrences, count. simpl filter.
  destruct (x =? v); [simpl List.length; rewrite Nat2Z.inj_succ|]; lia.
Qed.

Lemma indicator_sum (x : Z) (ks : list Z) :
  NoDup ks ->
  int_sum (map (fun v => if x =? v then 1 else 0) ks)
  = if in_dec Z.eq_dec x ks then 1 else 0.
Proof.
  induction 1 as [|k ks Hnotin Hnd IH]; simpl; [reflexivity|].
  rewrite IH. destruct (Z.eq_dec k x) as [->|Hne].
  - rewrite Z.eqb_refl. destruct (in_dec Z.eq_dec x ks); [contradiction|lia].
  - destruct (Z.eqb_spec x k); [congruence|].
    destruct (in_dec Z.eq_dec x ks); reflexivity.
Qed.

Lemma occurrences_total (s ks : list Z) :
  NoDup ks -> incl s ks ->
  int_sum (map (fun v => occurrences v s) ks) = count s.
Proof.
  intros Hnd. induction s as [|x s IH]; intros Hincl.
  - unfold occurrences, count. simpl.
    clear Hnd Hincl. induction ks; simpl; lia.
  - assert (Hsplit : forall l,
               int_sum (map (fun v => occurrences v (x :: s)) l)
               = int_sum (map (fun v => if x =? v then 1 else 0) l)
                 + int_sum (map (fun v => occurrences v s) l)).
    { induction l as [|k l IHl]; simpl; [reflexivity|].
      rewrite IHl, occurrences_cons. lia. }
    rewrite Hsplit, IH, (indicator_sum x ks Hnd).
    + destruct (in_dec Z.eq_dec x ks) as [_|Hn].
      * unfold count. simpl List.length. rewrite Nat2Z.inj_succ. lia.
      * exfalso. apply Hn. apply Hincl. now left.
    + intros y Hy. apply Hincl. now right.
Qed.

Lemma occurrences_positive (v : Z) (s : list Z) :
  In v s -> 1 <= occurrences v s.
Proof.
  induction s as [|x s IH]; intros Hin; [destruct Hin|].
  rewrite occurrences_cons. assert (0 <= occurrences v s).
  { unfold occurrences, count. lia. }
  destruct Hin as [->|Hin].
  - rewrite Z.eqb_refl. lia.
  - specialize (IH Hin). destruct (x =? v); lia.
Qed.

Lemma value_counts_perm (s : list Z) :
  Permutation (value_counts s)
              (map (fun v => (v, occurrences v s)) (unique s)).
Proof. apply sort_keys_perm. Qed.

Lemma value_counts_total (s : list Z) :
  int_sum (map snd (value_counts s)) = count s.
Proof.
  rewrite (int_sum_perm _ _ (Permutation_map snd (value_counts_perm s))).
  rewrite map_map. simpl. apply occurrences_total.
  - apply unique_NoDup.
  - intros x. apply unique_In.
Qed.

Lemma value_counts_In (s : list Z) (v c : Z) :
  In (v, c) (value_counts s) <-> In v s /\ c = occurrences v s.
Proof.
  split.
  - intros H. apply (Permutation_in _ (value_counts_perm s)) in H.
    apply in_map_iff in H. destruct H as [v' [Heq Hin]].
    injection Heq as -> <-. split; [now apply unique_In | reflexivity].
  - intros [Hin ->].
    apply (Permutation_in _ (Permutation_sym (value_counts_perm s))).
    apply (in_map (fun v => (v, occurrences v s))). now apply unique_In.
Qed.

Lemma value_counts_keys (s : list Z) :
  Permutation (map fst (value_counts s)) (unique s).
Proof.
  rewrite (Permutation_map fst (value_counts_perm s)), map_map. simpl.
  now rewrite map_id.
Qed.

Lemma count_geb_total (a b : Z * Z) :
  count_geb a b = true \/ count_geb b a = true.
Proof. unfold count_geb. rewrite !Z.leb_le. lia. Qed.

Lemma count_geb_trans (a b c : Z * Z) :
  count_geb a b = true -> count_geb b c = true -> count_geb a c = true.
Proof. unfold count_geb. rewrite !Z.leb_le. lia. Qed.

Lemma percentages_total (total : Q) (cs : list Z) :
  (series_sum (map (fun c => inject_Z c / total * inject_Z 100) cs)
   == inject_Z (int_sum cs) / total * inject_Z 100)%Q.
Proof.
  induction cs as [|c cs IH]; simpl.
  - unfold Qdiv. ring.
  - rewrite IH, inject_Z_plus. unfold Qdiv. ring.
Qed.

Lemma cluster_counts_columns (fc : list Cust.row) :
  map Counts.Count (cluster_counts fc)
  = map snd (value_counts (map Cust.cluster fc))
  /\ map Counts.Cluster (cluster_counts fc)
     = map fst (value_counts (map Cust.cluster fc)).
Proof.
  unfold cluster_counts. rewrite !map_map.
  split; apply map_ext; intros [v c]; reflexivity.
Qed.

(** X7.  The segment distribution has one row per segment present, most
    frequent first; each count is the number of filtered customers of that
    segment and is at least 1; the counts add up to the number of filtered
    customers; the percentages are finite and add up to 100, or there is no
    row at all when the view is empty. *)
Theorem cluster_counts_add_up :
  forall fc : list Cust.row,
    let rows := cluster_counts fc in
    int_sum (map Counts.Count rows) = count fc
    /\ Forall (fun row =>
                 1 <= Counts.Count row
                 /\ Counts.Count row
                    = occurrences (Counts.Cluster row) (map Cust.cluster fc))
              rows
    /\ Permutation (map Counts.Cluster rows) (unique (map Cust.cluster fc))
    /\ StronglySorted (fun a b => Counts.Count b <= Counts.Count a) rows
    /\ exists ps,
         map Counts.Percentage rows = map Fin ps
         /\ (series_sum ps == if is_empty fc then 0 else 100)%Q.
Proof.
  intros fc rows.
  destruct (cluster_counts_columns fc) as [Hcount Hcluster].
  assert (Htotal : int_sum (map snd (value_counts (map Cust.cluster fc)))
                   = count fc).
  { rewrite value_counts_total. unfold count. now rewrite length_map. }
  split; [|split; [|split; [|split]]].
  - unfold rows. now rewrite Hcount.
  - unfold rows, cluster_counts. apply Forall_map.
    apply Forall_forall. intros [v c] Hin. simpl.
    apply value_counts_In in Hin. destruct Hin as [Hin ->].
    split; [now apply occurrences_positive | reflexivity].
  - unfold rows. rewrite Hcluster. apply value_counts_keys.
  - unfold rows, cluster_counts. apply sorted_map.
    eapply sorted_weaken;
      [|apply (sort_keys_sorted _ count_geb count_geb_total count_geb_trans)].
    intros [v c] [v' c'] H. simpl. unfold count_geb in H. simpl in H.
    now apply Z.leb_le.
  - unfold rows, cluster_counts. rewrite Htotal.
    destruct fc as [|c0 fc'].
    + exists []. split; reflexivity.
    + cbn [is_empty]. set (fc := c0 :: fc') in *.
      assert (Hnz : ~ (inject_Z (count fc) == 0)%Q).
      { apply count_nonzero. discriminate. }
      exists (map (fun vc : Z * Z =>
                     (inject_Z (snd vc) / inject_Z (count fc)
                      * inject_Z 100)%Q)
                  (value_counts (map Cust.cluster fc))).
      split.
      * rewrite map_map, map_map. apply map_ext. intros [v c].
        cbn [Counts.Percentage snd]. unfold of_int.
        now rewrite fdiv_finite by exact Hnz.
      * rewrite <- (map_map snd
                      (fun c => (inject_Z c / inject_Z (count fc)
                                 * inject_Z 100)%Q)).
        rewrite percentages_total, Htotal.
        change (inject_Z 100) with 100%Q. field. exact Hnz.
Qed.

(** ** Segment names *)

Lemma segment_name_of_option (k : Z) :
  In k cluster_options ->
  dict_map segment_names k = Some (cluster_filter_label k).
Proof.
  intros [<-|[<-|[]]]; reflexivity.
Qed.

Lemma segment_groups_keys_In (fc : list Cust.row) (k : Z) :
  In k (map fst (segment_groups fc)) <-> In k (map Cust.cluster fc).
Proof.
  unfold segment_groups. rewrite groupby_keys, group_keys_In, in_map_iff.
  split.
  - intros [c [Hc Hk]]. exists c. split; [congruence | exact Hc].
  - intros [c [Hk Hc]]. exists c. split; [exact Hc | congruence].
Qed.

Lemma cluster_metrics_clusters (fc : list Cust.row) :
  map Metrics.cluster (cluster_metrics fc) = map fst (segment_groups fc).
Proof.
  unfold cluster_metrics. rewrite map_map. apply map_ext.
  intros [k g]. reflexivity.
Qed.

(** X8.  When the selected segments are among the two the multiselect
    offers, every row of the segment distribution, every row of the
    per-segment averages and every radar trace carries a segment name, and
    it is the name the multiselect shows for that segment: the lookups of
    lines 121-124 and 154-157 never yield a null on a filtered view. *)
Theorem segment_names_are_defined :
  forall (data : list Txn.row) (customers : list Cust.row)
         (cluster_filter : list Z) (date_range : list date),
    incl cluster_filter cluster_options ->
    let fc := filtered_customers data customers cluster_filter date_range in
    Forall (fun row => Counts.Segment row
                       = Some (cluster_filter_label (Counts.Cluster row)))
           (cluster_counts fc)
    /\ Forall (fun m => Metrics.Segment m
                        = Some (cluster_filter_label (Metrics.cluster m)))
              (cluster_metrics fc)
    /\ Forall (fun t => name t <> None) (segment_profile fc).
Proof.
  intros data customers cluster_filter date_range Hopt fc.
  assert (Hin : forall k, In k (map Cust.cluster fc) -> In k cluster_options).
  { intros k Hk. apply in_map_iff in Hk. destruct Hk as [c [<- Hc]].
    apply Hopt.
    pose proof (filtered_customers_in_segments
                  data customers cluster_filter date_range) as Hseg.
    rewrite Forall_forall in Hseg. now apply Hseg. }
  assert (Hm : Forall (fun m => Metrics.Segment m
                                = Some (cluster_filter_label (Metrics.cluster m)))
                      (cluster_metrics fc)).
  { unfold cluster_metrics. apply Forall_map. apply Forall_forall.
    intros [k g] Hg. simpl. apply segment_name_of_option. apply Hin.
    apply segment_groups_keys_In.
    apply (in_map fst) in Hg. exact Hg. }
  split; [|split].
  - unfold cluster_counts. apply Forall_map. apply Forall_forall.
    intros [v c] Hvc. simpl. apply segment_name_of_option. apply Hin.
    apply value_counts_In in Hvc. tauto.
  - exact Hm.
  - unfold segment_profile, radar_traces. apply Forall_map.
    eapply Forall_impl; [|exact Hm]. simpl. intros m ->. discriminate.
Qed.

Lemma segment_names_are_defined_witness :
  List.length
    (segment_profile
       (filtered_customers spring_log three_customers both_segments []))
  = 2%nat
  /\ Forall (fun row => Counts.Segment row
                        = Some (cluster_filter_label (Counts.Cluster row)))
            (cluster_counts
               (filtered_customers spring_log three_customers both_segments
                                   []))
  /\ Forall (fun t => name t <> None)
            (segment_profile
               (filtered_customers spring_log three_customers both_segments
                                   [])).
Proof.
  destruct (segment_names_are_defined
              spring_log three_customers both_segments [])
    as [Hcounts [_ Hnames]].
  - intros k Hk. exact Hk.
  - split; [reflexivity|]. split; [exact Hcounts | exact Hnames].
Defined.

(** ** The per-segment averages *)

Lemma present_clusters (fc : list Cust.row) :
  present_keys (fun c => Some (Cust.cluster c)) fc = map Cust.cluster fc.
Proof.
  induction fc as [|c fc IH]; simpl; [reflexivity | now rewrite IH].
Qed.

Lemma Zleb_total (a b : Z) : (a <=? b) = true \/ (b <=? a) = true.
Proof. rewrite !Z.leb_le. lia. Qed.

Lemma Zleb_trans (a b c : Z) :
  (a <=? b) = true -> (b <=? c) = true -> (a <=? c) = true.
Proof. rewrite !Z.leb_le. lia. Qed.

Lemma segment_groups_sorted (fc : list Cust.row) :
  StronglySorted Z.lt (map fst (segment_groups fc)).
Proof.
  unfold segment_groups. rewrite groupby_keys.
  apply sorted_weaken with (R := fun a b => (a <=? b) = true /\ a <> b).
  - intros a b [Hle Hne]. apply Z.leb_le in Hle. lia.
  - apply sorted_strict.
    + apply sort_keys_sorted; [exact Zleb_total | exact Zleb_trans].
    + apply group_keys_NoDup.
Qed.

Lemma segment_groups_count (fc : list Cust.row) :
  count (segment_groups fc) = nunique (map Cust.cluster fc).
Proof.
  unfold count, nunique, count. f_equal.
  rewrite <- (length_map fst (segment_groups fc)).
  unfold segment_groups. rewrite groupby_keys, present_clusters.
  apply Permutation_length.
  rewrite sort_keys_perm.
  apply NoDup_Permutation.
  - apply NoDup_nodup.
  - apply unique_NoDup.
  - intros x. now rewrite nodup_In, unique_In.
Qed.

(** X9.  The per-segment averages have one row per segment present among
    the filtered customers, in ascending order of segment and without
    repetition; each of the four means of a row is a finite number, the
    average over the filtered customers of that segment, of which there is
    at least one; and the radar chart has one trace per row. *)
Theorem cluster_metrics_rows :
  forall fc : list Cust.row,
    StronglySorted Z.lt (map Metrics.cluster (cluster_metrics fc))
    /\ (forall k, In k (map Metrics.cluster (cluster_metrics fc))
                  <-> In k (map Cust.cluster fc))
    /\ Forall (fun m =>
                 let g := filter (fun c => Cust.cluster c =? Metrics.cluster m)
                                 fc in
                 g <> []
                 /\ Metrics.monetary m = Fin (average (map Cust.monetary g))
                 /\ Metrics.frequency m = Fin (average (map Cust.frequency g))
                 /\ Metrics.recency m = Fin (average (map Cust.recency g))
                 /\ Metrics.customer_value_score m
                    = Fin (average (map Cust.customer_value_score g)))
              (cluster_metrics fc)
    /\ count (cluster_metrics fc) = nunique (map Cust.cluster fc)
    /\ map name (segment_profile fc)
       = map Metrics.Segment (cluster_metrics fc).
Proof.
  intros fc. split; [|split; [|split; [|split]]].
  - rewrite cluster_metrics_clusters. apply segment_groups_sorted.
  - intros k. rewrite cluster_metrics_clusters.
    apply segment_groups_keys_In.
  - unfold cluster_metrics. apply Forall_map. apply Forall_forall.
    intros [k g] Hg. apply segment_groups_In in Hg.
    destruct Hg as [Hg Hne]. simpl in Hg, Hne. simpl. rewrite <- Hg.
    assert (Hmap : forall f : Cust.row -> Q, map f g <> []).
    { intros f. destruct g; [congruence | discriminate]. }
    split; [exact Hne|].
    now rewrite !series_mean_average by apply Hmap.
  - unfold cluster_metrics, count. rewrite length_map.
    apply segment_groups_count.
  - unfold segment_profile, radar_traces. rewrite map_map. reflexivity.
Qed.

(** ** The monthly roll-up, row by row *)

Lemma bucket_leb_spec (a b : bucket) :
  bucket_leb a b = true <-> bucket_lt a b \/ a = b.
Proof.
  destruct a as [[ya ma] ca], b as [[yb mb] cb].
  unfold bucket_leb, bucket_lt. simpl.
  rewrite !orb_true_iff, !andb_true_iff, orb_true_iff, andb_true_iff.
  rewrite !Z.ltb_lt, !Z.eqb_eq, Z.leb_le.
  split.
  - intros [H|[-> [H|[-> H]]]]; try (left; lia).
    destruct (Z.eq_dec ca cb) as [->|Hne]; [now right | left; lia].
  - intros [H|H]; [lia|]. injection H as -> -> ->. lia.
Qed.

Lemma bucket_leb_total (a b : bucket) :
  bucket_leb a b = true \/ bucket_leb b a = true.
Proof.
  rewrite !bucket_leb_spec.
  destruct a as [[ya ma] ca], b as [[yb mb] cb]. unfold bucket_lt. simpl.
  destruct (Z.eq_dec ya yb) as [->|]; [|lia].
  destruct (Z.eq_dec ma mb) as [->|]; [|lia].
  destruct (Z.eq_dec ca cb) as [->|]; [now left; right | lia].
Qed.

Lemma bucket_leb_trans (a b c : bucket) :
  bucket_leb a b = true -> bucket_leb b c = true -> bucket_leb a c = true.
Proof.
  rewrite !bucket_leb_spec.
  intros [H1| ->] [H2| ->]; try (now left); try (now right).
  left. destruct a as [[ya ma] ca], b as [[yb mb] cb], c as [[yc mc] cc].
  unfold bucket_lt in *. simpl in *. lia.
Qed.

Lemma bucket_of_aggregate (g : bucket * list Joined.row) :
  bucket_of (aggregate g) = fst g.
Proof. destruct g as [[[y m] c] rows]. reflexivity. Qed.

Lemma rollup_buckets (fd : list Txn.row) (customers : list Cust.row) :
  map bucket_of (monthly_rollup fd customers)
  = map fst (monthly_groups fd customers).
Proof.
  unfold monthly_rollup. rewrite map_map. apply map_ext.
  apply bucket_of_aggregate.
Qed.

(** X10.  Every row of the monthly roll-up stands for at least one order:
    its order count is at least 1, its number of distinct customers lies
    between 1 and the order count, its average order value is the finite
    quotient of its revenue by its order count, and its month is given as
    the first day of that month at midnight.  No row is made up for a month
    without orders. *)
Theorem rollup_rows_are_well_formed :
  forall (fd : list Txn.row) (customers : list Cust.row),
    Forall (fun m =>
              1 <= Monthly.unique_customers m <= Monthly.order_count m
              /\ Monthly.avg_order_value m
                 = Fin (Monthly.total_revenue m
                        / inject_Z (Monthly.order_count m))
              /\ day (ts_date (Monthly.year_month m)) = 1
              /\ time_of_day (Monthly.year_month m) = 0
              /\ exists t, In t fd
                           /\ to_period_M (Txn.order_date t)
                              = to_period_M (Monthly.year_month m))
           (monthly_rollup fd customers).
Proof.
  intros fd customers. unfold monthly_rollup. apply Forall_map.
  apply Forall_forall. intros [k rows] Hg.
  pose proof (groupby_In _ _ _ _ _ _ _ _ Hg) as [_ Hne].
  destruct rows as [|j rows']; [congruence|].
  set (rows := j :: rows') in *.
  assert (Hj : In j (snd (k, rows))) by (now left).
  destruct (grouped_rows_have_customers fd customers (k, rows) j Hg Hj)
    as [Hfd [_ Hkey]].
  unfold aggregate. cbn [Monthly.unique_customers Monthly.order_count
                         Monthly.avg_order_value Monthly.total_revenue
                         Monthly.year_month].
  split; [|split; [|split; [|split]]].
  - pose proof (nunique_le_count
                  (map (fun j => Txn.customer_id (Joined.txn j)) rows)) as Hle.
    pose proof (nunique_nonzero
                  (map (fun j => Txn.customer_id (Joined.txn j)) rows)
                  ltac:(discriminate)) as Hnz.
    unfold count in Hle. rewrite length_map in Hle. fold (count rows) in Hle.
    assert (0 <= nunique (map (fun j => Txn.customer_id (Joined.txn j)) rows))
      by (unfold nunique, count; lia).
    lia.
  - rewrite series_mean_average by discriminate.
    unfold average, count. now rewrite length_map.
  - reflexivity.
  - reflexivity.
  - exists (Joined.txn j). split; [exact Hfd|].
    unfold bucket_key in Hkey. destruct (Joined.cluster j); [|discriminate].
    injection Hkey as <-. destruct (to_period_M _). reflexivity.
Qed.

(** X11.  The rows of the monthly roll-up come in strictly ascending order
    of (year, month, segment): months in calendar order, the segments of a
    month in ascending order, and no bucket twice. *)
Theorem rollup_is_sorted :
  forall (fd : list Txn.row) (customers : list Cust.row),
    StronglySorted bucket_lt (map bucket_of (monthly_rollup fd customers)).
Proof.
  intros fd customers. rewrite rollup_buckets.
  unfold monthly_groups. rewrite groupby_keys.
  apply sorted_weaken
    with (R := fun a b => bucket_leb a b = true /\ a <> b).
  - intros a b [Hle Hne]. apply bucket_leb_spec in Hle.
    destruct Hle; [assumption | contradiction].
  - apply sorted_strict.
    + apply sort_keys_sorted; [exact bucket_leb_total | exact bucket_leb_trans].
    + apply group_keys_NoDup.
Qed.

(** ** The join, row by row *)

Lemma int_sum_counts {A B : Type} (g : A -> list B) (l : list A) :
  int_sum (map (fun a => count (g a)) l) = count (flat_map g l).
Proof.
  unfold count. induction l as [|a l IH]; simpl; [reflexivity|].
  rewrite IH, length_app. lia.
Qed.

(** X12.  When customer ids are unique in the customer table, the order
    counts of the monthly roll-up add up to the number of filtered
    transactions whose customer has a row in the customer table: each such
    transaction is counted in exactly one bucket, and the others in none. *)
Theorem rollup_counts_known_orders :
  forall (fd : list Txn.row) (customers : list Cust.row),
    NoDup (map Cust.customer_id customers) ->
    int_sum (map Monthly.order_count (monthly_rollup fd customers))
    = count (filter (has_customer customers) fd)
    /\ Permutation
         (map Joined.txn (flat_map snd (monthly_groups fd customers)))
         (filter (has_customer customers) fd).
Proof.
  intros fd customers Hnd.
  assert (Hperm : Permutation
                    (flat_map snd (monthly_groups fd customers))
                    (filter keyed_row (merge_left fd customers))).
  { unfold monthly_groups, filtered_data_with_cluster. apply groupby_flat. }
  split.
  - unfold monthly_rollup. rewrite map_map.
    rewrite (map_ext (fun g => Monthly.order_count (aggregate g))
                     (fun g => count (snd g)))
      by (intros [k g]; reflexivity).
    rewrite int_sum_counts. unfold count. f_equal.
    rewrite (Permutation_length Hperm).
    rewrite <- (keyed_txns fd customers Hnd). now rewrite length_map.
  - rewrite <- (keyed_txns fd customers Hnd). now apply Permutation_map.
Qed.

Lemma rollup_counts_known_orders_witness :
  int_sum (map Monthly.order_count (monthly_rollup walk_in_log two_customers))
  = count (filter (has_customer two_customers) walk_in_log).
Proof.
  apply (rollup_counts_known_orders walk_in_log two_customers).
  repeat (constructor; [simpl; intuition discriminate|]). constructor.
Defined.

(** X13.  When customer ids are unique in the customer table, the left join
    of lines 254-258 returns the filtered transactions themselves, in the
    same order, none lost and none repeated; the segment attached to a
    transaction is the cluster of a customer row with its id, and is null
    exactly when the customer table has no such row. *)
Theorem left_join_keeps_transactions :
  forall (fd : list Txn.row) (customers : list Cust.row),
    NoDup (map Cust.customer_id customers) ->
    map Joined.txn (filtered_data_with_cluster fd customers) = fd
    /\ Forall (fun j =>
                 match Joined.cluster j with
                 | Some k =>
                     exists c, In c customers
                               /\ Cust.customer_id c
                                  = Txn.customer_id (Joined.txn j)
                               /\ Cust.cluster c = k
                 | None =>
                     ~ In (Txn.customer_id (Joined.txn j))
                          (map Cust.customer_id customers)
                 end)
              (filtered_data_with_cluster fd customers).
Proof.
  intros fd customers Hnd. split.
  - now apply merged_txns.
  - apply Forall_forall. intros j Hj.
    apply merge_left_In in Hj. destruct Hj as [_ Hj].
    destruct (Joined.cluster j); [exact Hj|].
    unfold has_customer in Hj. intros Hin. apply isin_In in Hin. congruence.
Qed.

Lemma left_join_keeps_transactions_witness :
  map Joined.txn (filtered_data_with_cluster walk_in_log two_customers)
  = walk_in_log.
Proof.
  apply (left_join_keeps_transactions walk_in_log two_customers).
  repeat (constructor; [simpl; intuition discriminate|]). constructor.
Defined.

Lemma matches_count (customers : list Cust.row) (v : Z) :
  count (filter (fun c => Cust.customer_id c =? v) customers)
  = occurrences v (map Cust.customer_id customers).
Proof.
  unfold occurrences, count. f_equal.
  induction customers as [|c cs IH]; simpl; [reflexivity|].
  destruct (Cust.customer_id c =? v); simpl; now rewrite IH.
Qed.

Lemma matched_rows_revenue (t : Txn.row) (ms : list Cust.row) :
  (series_sum
     (map amount_of
          (filter keyed_row
                  (map (fun c => Joined.mk t (Some (Cust.cluster c))) ms)))
   == Txn.purchase_amount t * inject_Z (count ms))%Q.
Proof.
  induction ms as [|c ms IH].
  - simpl. unfold count. simpl. ring.
  - change (series_sum
              (map amount_of
                   (filter keyed_row
                           (map (fun c => Joined.mk t (Some (Cust.cluster c)))
                                (c :: ms)))))
      with (Txn.purchase_amount t
            + series_sum
                (map amount_of
                     (filter keyed_row
                             (map (fun c => Joined.mk t (Some (Cust.cluster c)))
                                  ms))))%Q.
    rewrite IH. unfold count. simpl List.length.
    rewrite Nat2Z.inj_succ, <- Z.add_1_l, inject_Z_plus. ring.
Qed.

Lemma matched_rows_txns (t : Txn.row) (ms : list Cust.row) :
  map Joined.txn
      (filter keyed_row
              (map (fun c => Joined.mk t (Some (Cust.cluster c))) ms))
  = repeat t (List.length ms).
Proof.
  induction ms as [|c ms IH]; [reflexivity|].
  change (map Joined.txn
              (filter keyed_row
                      (map (fun c => Joined.mk t (Some (Cust.cluster c)))
                           (c :: ms))))
    with (t :: map Joined.txn
                   (filter keyed_row
                           (map (fun c => Joined.mk t (Some (Cust.cluster c)))
                                ms))).
  now rewrite IH.
Qed.

Lemma matches_length (customers : list Cust.row) (v : Z) :
  List.length (filter (fun c => Cust.customer_id c =? v) customers)
  = Z.to_nat (occurrences v (map Cust.customer_id customers)).
Proof.
  rewrite <- matches_count. unfold count. now rewrite Nat2Z.id.
Qed.

Lemma keyed_txns_by_multiplicity (fd : list Txn.row)
    (customers : list Cust.row) :
  map Joined.txn (filter keyed_row (merge_left fd customers))
  = flat_map
      (fun t =>
         repeat t (Z.to_nat (occurrences (Txn.customer_id t)
                                         (map Cust.customer_id customers))))
      fd.
Proof.
  induction fd as [|t fd IH]; [reflexivity|].
  rewrite merge_left_cons, filter_app, map_app, IH. cbn [flat_map].
  f_equal. rewrite <- matches_length.
  destruct (has_customer customers t) eqn:Ht.
  - rewrite (merge_left_matched t customers Ht). apply matched_rows_txns.
  - rewrite (merge_left_unmatched t customers Ht).
    apply no_match_iff in Ht. now rewrite Ht.
Qed.

(** X14.  Without any assumption on the customer table, each row of the
    customer table with the id of a transaction puts that transaction once
    into a bucket of the monthly roll-up: the transactions held by the
    buckets are the filtered transactions, each repeated as many times as
    there are customer rows with its customer id.  A customer listed twice
    has its orders counted twice, a customer not listed has them left out.
    Hence, in exact arithmetic, the revenues of the roll-up add up to the
    sum, over the filtered transactions, of the purchase amount times that
    number of rows; the binary64 sums agree up to rounding only. *)
Theorem rollup_revenue_by_multiplicity :
  forall (fd : list Txn.row) (customers : list Cust.row),
    Permutation
      (map Joined.txn (flat_map snd (monthly_groups fd customers)))
      (flat_map
         (fun t =>
            repeat t (Z.to_nat (occurrences (Txn.customer_id t)
                                            (map Cust.customer_id customers))))
         fd)
    /\ (series_sum (map Monthly.total_revenue (monthly_rollup fd customers))
        == series_sum
             (map (fun t =>
                     Txn.purchase_amount t
                     * inject_Z (occurrences (Txn.customer_id t)
                                             (map Cust.customer_id customers)))
                  fd))%Q.
Proof.
  intros fd customers. split.
  - rewrite <- keyed_txns_by_multiplicity. apply Permutation_map.
    unfold monthly_groups, filtered_data_with_cluster. apply groupby_flat.
  - rewrite rollup_revenue.
    induction fd as [|t fd IH]; [reflexivity|].
    rewrite merge_left_cons, filter_app, map_app, series_sum_app, IH.
    cbn [map series_sum].
    apply Qplus_comp; [|reflexivity].
    rewrite <- matches_count.
    destruct (has_customer customers t) eqn:Ht.
    + rewrite (merge_left_matched t customers Ht). apply matched_rows_revenue.
    + rewrite (merge_left_unmatched t customers Ht).
      apply no_match_iff in Ht. rewrite Ht. simpl. unfold count. simpl. ring.
Qed.

(** ** Empty views *)

Lemma filter_none {A : Type} (f : A -> bool) (l : list A) :
  (forall x, In x l -> f x = false) -> filter f l = [].
Proof.
  induction l as [|x l IH]; intros H; simpl; [reflexivity|].
  rewrite (H x) by now left. apply IH. intros y Hy. apply H. now right.
Qed.

(** X15.  A date range without any transaction empties the whole page: no
    filtered customer, hence no row in the segment distribution and no
    radar trace, and no row in the monthly roll-up.  An empty segment
    selection empties the customer view whatever the dates. *)
Theorem empty_window_empties_the_views :
  forall (data : list Txn.row) (customers : list Cust.row)
         (cluster_filter : list Z) (s e : date),
    filtered_data data customers cluster_filter [s; e] = [] ->
    let fc := filtered_customers data customers cluster_filter [s; e] in
    fc = []
    /\ cluster_counts fc = []
    /\ segment_profile fc = []
    /\ monthly_data data customers cluster_filter [s; e] = []
    /\ (forall date_range, filtered_customers data customers [] date_range = []).
Proof.
  intros data customers cluster_filter s e Hfd fc.
  assert (Hfc : fc = []).
  { unfold fc, filtered_customers. simpl.
    unfold filtered_data in Hfd. simpl in Hfd. rewrite Hfd. simpl.
    now apply filter_none. }
  rewrite Hfc. split; [reflexivity|]. split; [reflexivity|].
  split; [reflexivity|]. split.
  - unfold monthly_data. now rewrite Hfd.
  - intros [|s' [|e' [|x dr]]]; unfold filtered_customers; simpl;
      apply filter_none; intros c _; simpl;
      now rewrite ?andb_false_r.
Qed.

Lemma empty_window_empties_the_views_witness :
  monthly_data refund_log two_customers both_segments next_year = [].
Proof.
  apply (empty_window_empties_the_views
           refund_log two_customers both_segments
           (mkdate 2025 1 1) (mkdate 2025 1 2)).
  reflexivity.
Defined.

(** ** The rim of the radar chart *)









(** ** Which buckets exist *)

(** X17.  The monthly roll-up has a row for a (month, segment) pair exactly
    when some filtered transaction of that month belongs to a customer
    whose row in the customer table carries that segment, whether or not
    the segment is selected in the sidebar. *)
Theorem rollup_buckets_are_the_observed_pairs :
  forall (fd : list Txn.row) (customers : list Cust.row) (b : bucket),
    In b (map bucket_of (monthly_rollup fd customers))
    <-> exists t c,
          In t fd /\ In c customers
          /\ Cust.customer_id c = Txn.customer_id t
          /\ b = (to_period_M (Txn.order_date t), Cust.cluster c).
Proof.
  intros fd customers b. rewrite rollup_buckets.
  unfold monthly_groups, filtered_data_with_cluster.
  rewrite groupby_keys, group_keys_In. split.
  - intros [j [Hj Hkey]]. apply merge_left_In in Hj.
    destruct Hj as [Hfd Hc]. unfold bucket_key in Hkey.
    destruct (Joined.cluster j) as [k|]; [|discriminate].
    destruct Hc as [c [Hc [Hid Hk]]]. injection Hkey as <-.
    exists (Joined.txn j), c. repeat split; try assumption.
    now rewrite Hk.
  - intros [t [c [Ht [Hc [Hid ->]]]]].
    exists (Joined.mk t (Some (Cust.cluster c))). split; [|reflexivity].
    apply merge_left_In. simpl. split; [exact Ht|]. eauto.
Qed.

(** ** When the KPI row fails *)

(** X18.  The KPI row raises exactly when one of the two tables has no row:
    on an empty customer table the first tile raises [ZeroDivisionError],
    on an empty transaction table the second does.  When both tables have
    rows, all four tiles are computed for every filter selection, an empty
    view and a zero baseline included: the customer tile shows the number
    of distinct filtered ids, the revenue tile the filtered sum, and the two
    other tiles the filtered means. *)
Theorem kpi_row_fails_only_on_an_empty_table :
  forall (data : list Txn.row) (customers : list Cust.row)
         (cluster_filter : list Z) (date_range : list date),
    let fd := filtered_data data customers cluster_filter date_range in
    let fc := filtered_customers data customers cluster_filter date_range in
    (kpi_row data customers cluster_filter date_range
     = Raise ZeroDivisionError
     <-> customers = [] \/ data = [])
    /\ ((exists k,
            kpi_row data customers cluster_filter date_range = Ok k
            /\ value (kpi_customers k) = nunique (map Cust.customer_id fc)
            /\ value (kpi_revenue k)
               = series_sum (map Txn.purchase_amount fd)
            /\ value (kpi_order_value k)
               = series_mean (map Txn.purchase_amount fd)
            /\ value (kpi_frequency k)
               = series_mean (map Cust.frequency fc))
        <-> customers <> [] /\ data <> []).
Proof.
  intros data customers cluster_filter date_range fd fc.
  destruct customers as [|c0 cs].
  - pose proof (kpi_row_without_customers data cluster_filter date_range)
      as Hraise.
    split; split.
    + now left.
    + intros _. exact Hraise.
    + intros [k [Hk _]]. rewrite Hraise in Hk. discriminate.
    + intros [H _]. now elim H.
  - destruct data as [|t0 ts].
    + pose proof (kpi_row_without_transactions
                    (c0 :: cs) cluster_filter date_range) as Hraise.
      split; split.
      * now right.
      * intros _. exact Hraise.
      * intros [k [Hk _]]. rewrite Hraise in Hk. discriminate.
      * intros [_ H]. now elim H.
    + assert (Hok : exists k,
                 kpi_row (t0 :: ts) (c0 :: cs) cluster_filter date_range = Ok k
                 /\ value (kpi_customers k) = nunique (map Cust.customer_id fc)
                 /\ value (kpi_revenue k)
                    = series_sum (map Txn.purchase_amount fd)
                 /\ value (kpi_order_value k)
                    = series_mean (map Txn.purchase_amount fd)
                 /\ value (kpi_frequency k)
                    = series_mean (map Cust.frequency fc)).
      { unfold kpi_row. fold fd. fold fc.
        rewrite (total_customers_ok fc (c0 :: cs)) by discriminate.
        cbn [bind]. unfold total_revenue. cbn [bind].
        eexists. split; [reflexivity|]. repeat split. }
      split; split.
      * intros Hraise. destruct Hok as [k [Hk _]].
        rewrite Hraise in Hk. discriminate.
      * intros [H|H]; discriminate.
      * intros _. split; discriminate.
      * intros _. exact Hok.
Qed.

Lemma kpi_row_fails_only_on_an_empty_table_witness :
  kpi_row [] two_customers both_segments [] = Raise ZeroDivisionError.
Proof.
  apply (proj1 (kpi_row_fails_only_on_an_empty_table
                  [] two_customers both_segments [])).
  now right.
Defined.
